(** * Verification of the example repository: MCP server stubs and the
      text-analyzer agent skill

    The development is a shallow embedding of the JavaScript/TypeScript
    sources:

    - [Js]          string primitives the sources use (template strings,
                    [toLowerCase], global regular-expression matches over
                    character classes, decimal rendering of integers);
    - [McpServers]  the Salesforce and Google Drive stub tools;
    - [Json]        the values a call carries;
    - [TextAnalyzer] the text-analyzer skill: its analysis functions and its
                    handler with the in-handler duplicate tracker;
    - [SkillCore]   the registry / validator / deduplicator / dispatcher
                    design of the specification, which has no source file;
    - [Double]      double-precision arithmetic on quotients of counts and
                    [toFixed(1)];
    - [Fixtures]    a concrete host and test handlers, for examples;
    - [Measures]    sums, substring search and sample inputs that the
                    statements about the analyses use.

    The modules [McpFacts], [TextAnalyzerFacts] and [SkillCoreFacts] hold
    the properties; [McpStubFacts], [AnalysisFacts] and [HandlerFacts] add
    further properties of the stubs, the analysis functions and the
    handler.

    Strings are Rocq strings read as sequences of code units in the Latin-1
    range; a JavaScript object used as a record is a Rocq record, one used
    as an ordered dictionary is an association list. *)

From Stdlib Require Import String Ascii List ZArith NArith Lia Bool Arith.
From Stdlib Require Import Decimal DecimalString DecimalPos DecimalN DecimalZ.
From stdpp Require Import base option list sorting strings gmap.

Import ListNotations.
Open Scope string_scope.
Open Scope list_scope.

(* ===================================================================== *)
(** * JavaScript string primitives                                        *)
(* ===================================================================== *)

Module Js.

(** [`${n}`] for a non-negative integer [n]. *)
Definition nat_to_string (n : nat) : string :=
  NilEmpty.string_of_uint (Nat.to_uint n).

Definition N_to_string (n : N) : string :=
  NilEmpty.string_of_uint (N.to_uint n).

(** [x || d] for an optional string [x]: [undefined] and the empty string
    are the falsy strings. *)
Definition or_else (x : option string) (d : string) : string :=
  match x with
  | Some (String c s) => String c s
  | Some EmptyString => d
  | None => d
  end.

(** [Array.prototype.join]. *)
Fixpoint join (sep : string) (l : list string) : string :=
  match l with
  | [] => ""
  | [x] => x
  | x :: rest => x +:+ sep +:+ join sep rest
  end.

Definition in_range (lo hi : N) (c : ascii) : bool :=
  (lo <=? N_of_ascii c)%N && (N_of_ascii c <=? hi)%N.

Definition is_upper (c : ascii) : bool := in_range 65 90 c.
Definition is_lower (c : ascii) : bool := in_range 97 122 c.
Definition is_digit (c : ascii) : bool := in_range 48 57 c.

(** The class [\w] of a regular expression without the [u] and [i] flags:
    [A-Za-z0-9_]. *)
Definition is_word_char (c : ascii) : bool :=
  is_upper c || is_lower c || is_digit c || Ascii.eqb c "_".

(** The class [\s] restricted to the Latin-1 range: tab, line feed,
    vertical tab, form feed, carriage return, space, no-break space. *)
Definition is_space (c : ascii) : bool :=
  in_range 9 13 c || Ascii.eqb c " " || (N_of_ascii c =? 160)%N.

(** [String.prototype.toLowerCase] on one Latin-1 code unit: [A-Z] and the
    accented capitals U+00C0..U+00DE (except the multiplication sign
    U+00D7) move up by 32. *)
Definition lower_char (c : ascii) : ascii :=
  if is_upper c || (in_range 192 222 c && negb (N_of_ascii c =? 215)%N)
  then ascii_of_N (N_of_ascii c + 32)
  else c.

Fixpoint toLowerCase (s : string) : string :=
  match s with
  | EmptyString => EmptyString
  | String c s' => String (lower_char c) (toLowerCase s')
  end.

(** [s.match(/C+/g) || []] for a character class [C]: the maximal
    non-empty runs of characters of the class, left to right.  The
    pattern [\b[\w]+\b] has the same matches as [[\w]+]: a greedy run of
    word characters starts and ends at a word boundary. *)
Fixpoint runs_from (p : ascii -> bool) (cur : option string) (s : string)
  : list string :=
  match s with
  | EmptyString =>
      match cur with Some w => [w] | None => [] end
  | String c s' =>
      if p c then
        runs_from p (Some (match cur with
                           | Some w => w +:+ String c EmptyString
                           | None => String c EmptyString
                           end)) s'
      else
        match cur with
        | Some w => w :: runs_from p None s'
        | None => runs_from p None s'
        end
  end.

Definition runs (p : ascii -> bool) (s : string) : list string :=
  runs_from p None s.

(** [(s.match(/C/g) || []).length] for a character class [C]. *)
Fixpoint count_chars (p : ascii -> bool) (s : string) : nat :=
  match s with
  | EmptyString => 0
  | String c s' => (if p c then 1 else 0) + count_chars p s'
  end.

(** [s.replace(/C/g, "")] for a character class [C]. *)
Fixpoint remove_chars (p : ascii -> bool) (s : string) : string :=
  match s with
  | EmptyString => EmptyString
  | String c s' =>
      if p c then remove_chars p s' else String c (remove_chars p s')
  end.

(** [(s.match(new RegExp(w, "g")) || []).length] for a literal,
    non-empty word [w]: occurrences are found left to right and do not
    overlap; [skip] counts the characters of the last match still to be
    passed over. *)
Fixpoint count_literal_from (w : string) (skip : nat) (s : string) : nat :=
  match s with
  | EmptyString => 0
  | String c s' =>
      match skip with
      | S k => count_literal_from w k s'
      | O =>
          if String.prefix w s
          then S (count_literal_from w (String.length w - 1) s')
          else count_literal_from w 0 s'
      end
  end.

Definition count_literal (w s : string) : nat := count_literal_from w 0 s.

End Js.

(* ===================================================================== *)
(** * MCP server stubs                                                    *)
(* ===================================================================== *)

Module McpServers.

(** The stubs read the clock and write to the console.  The world holds
    the console output so far and the clock as the sequence of its future
    readings (milliseconds since the epoch); [reads] counts the readings
    already taken. *)
Record world := mkWorld {
  clock : nat -> N;
  reads : nat;
  console : list string
}.

Definition IO (A : Type) : Type := world -> A * world.

Definition ret {A} (a : A) : IO A := fun w => (a, w).

Definition bind {A B} (m : IO A) (k : A -> IO B) : IO B :=
  fun w => let (a, w') := m w in k a w'.

Notation "'let*' x := m 'in' k" := (bind m (fun x => k))
  (at level 10, x name, m at level 100, k at level 200).
Notation "m ';;' k" := (bind m (fun _ => k))
  (at level 100, k at level 200, right associativity).

(** [console.log(msg)]. *)
Definition console_log (msg : string) : IO unit :=
  fun w => (tt, mkWorld (clock w) (reads w) (console w ++ [msg])).

(** [Date.now()]. *)
Definition Date_now : IO N :=
  fun w => (clock w (reads w), mkWorld (clock w) (S (reads w)) (console w)).

Section Stubs.

(** [Date.prototype.toISOString] on a time value. *)
Variable toISOString : N -> string.

(** [new Date().toISOString()]. *)
Definition new_Date_toISOString : IO string :=
  let* t := Date_now in ret (toISOString t).

Record record := mkRecord {
  rec_id : string;
  rec_objectType : string;
  rec_name : string;
  rec_createdAt : string
}.

Definition queryRecords (objectType : string) (filter : option string)
  : IO (list record) :=
  console_log ("Querying " +:+ objectType +:+ " records with filter: "
               +:+ Js.or_else filter "none") ;;
  let* t1 := new_Date_toISOString in
  let* t2 := new_Date_toISOString in
  ret [ mkRecord "rec_001" objectType "Record 1" t1;
        mkRecord "rec_002" objectType "Record 2" t2 ].

Record document := mkDocument {
  doc_id : string;
  doc_title : string;
  doc_content : string;
  doc_createdAt : string;
  doc_status : string
}.

Definition createDocument (title content : string) : IO document :=
  console_log ("Creating document with title: " +:+ title) ;;
  let* ms := Date_now in
  let documentId := "doc_" +:+ Js.N_to_string ms in
  let* t := new_Date_toISOString in
  ret (mkDocument documentId title content t "success").

Record updated_document := mkUpdated {
  upd_id : string;
  upd_title : string;
  upd_content : string;
  upd_modifiedAt : string;
  upd_status : string
}.

(** [title] and [content] are optional parameters: [None] is an omitted
    (or [undefined]) argument. *)
Definition updateDocument (documentId : string)
           (title content : option string) : IO updated_document :=
  console_log ("Updating document with ID: " +:+ documentId) ;;
  let* t := new_Date_toISOString in
  ret (mkUpdated documentId
                 (Js.or_else title "Unchanged")
                 (Js.or_else content "Unchanged")
                 t "success").

Record fetched_document := mkFetched {
  got_id : string;
  got_title : string;
  got_content : string;
  got_createdAt : string;
  got_modifiedAt : string
}.

Definition getDocument (documentId : string) : IO fetched_document :=
  console_log ("Fetching document with ID: " +:+ documentId) ;;
  let* t1 := new_Date_toISOString in
  let* t2 := new_Date_toISOString in
  ret (mkFetched documentId "Sample Document"
                 "This is the document content" t1 t2).

(** The type of the [fields] objects, [Record<string, any>]; the stubs
    hand them on without looking inside. *)
Variable Fields : Type.

Record created_record := mkCreated {
  new_id : string;
  new_objectType : string;
  new_fields : Fields;
  new_createdAt : string;
  new_status : string
}.

Definition createRecord (objectType : string) (fields : Fields)
  : IO created_record :=
  console_log ("Creating new " +:+ objectType +:+ " record") ;;
  let* ms := Date_now in
  let recordId := "rec_" +:+ Js.N_to_string ms in
  let* t := new_Date_toISOString in
  ret (mkCreated recordId objectType fields t "success").

Record updated_record := mkUpdatedRecord {
  mod_id : string;
  mod_objectType : string;
  mod_updatedFields : Fields;
  mod_modifiedAt : string;
  mod_status : string
}.

Definition updateRecord (recordId objectType : string) (fields : Fields)
  : IO updated_record :=
  console_log ("Updating " +:+ objectType +:+ " record with ID: "
               +:+ recordId) ;;
  let* t := new_Date_toISOString in
  ret (mkUpdatedRecord recordId objectType fields t "success").

(** The time stamp of the [k]-th clock reading from the world [w] on. *)
Definition stamp (w : world) (k : nat) : string :=
  toISOString (clock w (reads w + k)).

End Stubs.

End McpServers.

(* ===================================================================== *)
(** * Argument values                                                     *)
(* ===================================================================== *)

Module Json.

(** The values a call can carry: JSON primitives, arrays and nested
    objects.  Numbers are restricted to the integers.  An object is the
    list of its properties in insertion order. *)
Unset Elimination Schemes.
Inductive value :=
| VNull
| VBool (b : bool)
| VNum (n : Z)
| VStr (s : string)
| VArr (l : list value)
| VObj (m : list (string * value)).
Set Elimination Schemes.

(** An argument object; a key that is absent reads as [undefined]. *)
Definition object := list (string * value).

Fixpoint get (k : string) (o : object) : option value :=
  match o with
  | [] => None
  | (k', v) :: o' => if String.eqb k' k then Some v else get k o'
  end.

Definition keys (o : object) : list string := map fst o.

End Json.

(* ===================================================================== *)
(** * The text-analyzer skill                                             *)
(* ===================================================================== *)

Module TextAnalyzer.

Import Json.

Definition name : string := "text-analyzer".

Definition nl : string := String "010" EmptyString.

(** ** analyzeKeywords *)

Definition commonWords : list string :=
  [ "the"; "a"; "an"; "and"; "or"; "but"; "in"; "on"; "at"; "to"; "for";
    "of"; "with"; "is"; "are"; "was"; "were"; "be"; "been" ].

(** [set.has(w)]. *)
Definition has (set : list string) (w : string) : bool :=
  existsb (String.eqb w) set.

(** A value stored in [wordFreq]: a number, or the string that [+ 1]
    produces from a non-numeric operand. *)
Inductive count :=
| CNum (n : nat)
| CStr (s : string).

(** [wordFreq] is created by the literal [{}]: its own properties, in
    creation order, on top of [Object.prototype]. *)
Definition wordFreq := list (string * count).

Fixpoint own (o : wordFreq) (k : string) : option count :=
  match o with
  | [] => None
  | (k', v) :: o' => if String.eqb k' k then Some v else own o' k
  end.

(** What a property read finds on [Object.prototype]. *)
Inductive inherited :=
| IFunction (fname : string)
| IObjectPrototype.

Definition Object_prototype_methods : list string :=
  [ "__defineGetter__"; "__defineSetter__"; "hasOwnProperty";
    "__lookupGetter__"; "__lookupSetter__"; "isPrototypeOf";
    "propertyIsEnumerable"; "toString"; "valueOf"; "toLocaleString" ].

Definition Object_prototype_get (k : string) : option inherited :=
  if String.eqb k "constructor" then Some (IFunction "Object")
  else if String.eqb k "__proto__" then Some IObjectPrototype
  else if has Object_prototype_methods k then Some (IFunction k)
  else None.

(** [ToPrimitive] of an inherited value, as [+] applies it. *)
Definition inherited_to_string (i : inherited) : string :=
  match i with
  | IFunction f => "function " +:+ f +:+ "() { [native code] }"
  | IObjectPrototype => "[object Object]"
  end.

(** [(wordFreq[word] || 0) + 1]. *)
Definition incremented (o : wordFreq) (word : string) : count :=
  match own o word with
  | Some (CNum n) => CNum (n + 1)
  | Some (CStr EmptyString) => CNum 1
  | Some (CStr s) => CStr (s +:+ "1")
  | None =>
      match Object_prototype_get word with
      | Some i => CStr (inherited_to_string i +:+ "1")
      | None => CNum 1
      end
  end.

Fixpoint replace_own (o : wordFreq) (k : string) (v : count) : wordFreq :=
  match o with
  | [] => []
  | (k', v') :: o' =>
      if String.eqb k' k then (k', v) :: o'
      else (k', v') :: replace_own o' k v
  end.

(** [wordFreq[k] = v]: an own property is overwritten in place; the
    inherited accessor [__proto__] takes the assignment and ignores a
    primitive; any other key becomes a new own property. *)
Definition assign (o : wordFreq) (k : string) (v : count) : wordFreq :=
  match own o k with
  | Some _ => replace_own o k v
  | None => if String.eqb k "__proto__" then o else o ++ [(k, v)]
  end.

Definition count_word (o : wordFreq) (word : string) : wordFreq :=
  assign o word (incremented o word).

(** An array index is a canonical numeric string below 2^32 - 1. *)
Definition array_index (k : string) : option N :=
  match NilEmpty.uint_of_string k with
  | Some d =>
      let n := N.of_uint d in
      if String.eqb (Js.N_to_string n) k && (n <? 4294967295)%N
      then Some n else None
  | None => None
  end.

Fixpoint insert_index {A} (x : N * A) (l : list (N * A)) : list (N * A) :=
  match l with
  | [] => [x]
  | y :: l' =>
      if (fst x <=? fst y)%N then x :: y :: l' else y :: insert_index x l'
  end.

Definition index_entries (o : wordFreq) : list (N * (string * count)) :=
  foldr (fun e acc =>
           match array_index (fst e) with
           | Some n => insert_index (n, e) acc
           | None => acc
           end) [] o.

Definition is_index (k : string) : bool :=
  match array_index k with Some _ => true | None => false end.

(** [Object.entries(o)]: array-index keys in ascending numeric order, then
    the other keys in creation order. *)
Definition entries (o : wordFreq) : list (string * count) :=
  map snd (index_entries o)
  ++ List.filter (fun e => negb (is_index (fst e))) o.

Inductive number :=
| Num (z : Z)
| NaN.

Definition toNumber (c : count) : number :=
  match c with
  | CNum n => Num (Z.of_nat n)
  | CStr _ => NaN  (* no stored string is a numeric literal *)
  end.

Definition minus (x y : number) : number :=
  match x, y with
  | Num a, Num b => Num (a - b)
  | _, _ => NaN
  end.

(** The comparator [(a, b) => b[1] - a[1]]. *)
Definition by_frequency (a b : string * count) : number :=
  minus (toNumber (snd b)) (toNumber (snd a)).

(** [Array.prototype.sort(comparefn)]: a comparator result of [NaN] counts
    as [+0]; the sort is stable.  It is written as an insertion sort: with
    a comparator that never yields [NaN] every stable sort returns the same
    array.  A comparator that yields [NaN] for some pairs and numbers for
    others is not consistent, and the order of the result is then left to
    the engine: on two elements, with [by_frequency], the insertion sort
    returns what V8 returns; on three or more it returns an arrangement
    of the same elements that need not be V8's. *)
Section Sort.
Context {A : Type} (comparefn : A -> A -> number).

Definition SortCompare (x y : A) : Z :=
  match comparefn x y with
  | Num z => z
  | NaN => 0
  end.

Fixpoint sort_insert (x : A) (l : list A) : list A :=
  match l with
  | [] => [x]
  | y :: l' =>
      if (SortCompare x y <=? 0)%Z then x :: y :: l'
      else y :: sort_insert x l'
  end.

Fixpoint sort (l : list A) : list A :=
  match l with
  | [] => []
  | x :: l' => sort_insert x (sort l')
  end.
End Sort.

Definition count_to_string (c : count) : string :=
  match c with
  | CNum n => Js.nat_to_string n
  | CStr s => s
  end.

(** [text.toLowerCase().match(/\b[\w]+\b/g) || []]. *)
Definition lower_words (text : string) : list string :=
  Js.runs Js.is_word_char (Js.toLowerCase text).

Definition keep_word (word : string) : bool :=
  negb (has commonWords word) && (3 <? String.length word)%nat.

Definition count_words (words : list string) : wordFreq :=
  fold_left count_word (List.filter keep_word words) [].

(** The entries behind [topKeywords], before they are rendered. *)
Definition top_entries (text : string) : list (string * count) :=
  take 10 (sort by_frequency (entries (count_words (lower_words text)))).

Definition topKeywords (text : string) : list string :=
  map (fun e => fst e +:+ " (" +:+ count_to_string (snd e) +:+ ")")
      (top_entries text).

Definition analyzeKeywords (text : string) : string :=
  "**Top Keywords:** " +:+ Js.join ", " (topKeywords text).

(** The occurrence count of a word in a text: how many of the lowercased
    word matches equal it. *)
Definition occurrences (word text : string) : nat :=
  count_occ string_dec (lower_words text) word.

(** The keywords of the result, without their counts. *)
Definition keywords (text : string) : list string :=
  map fst (top_entries text).

(** ** Counting and ordering, for the keyword contract *)

(** No character of the string is a capital [A-Z]. *)
Definition no_upper (s : string) : bool :=
  forallb (fun c => negb (Js.is_upper c)) (list_ascii_of_string s).

(** How often a word occurs in a list of words. *)
Definition tally (seen : list string) (w : string) : nat :=
  count_occ string_dec seen w.

(** What [wordFreq] holds after the words [seen], none of them
    "constructor": every word but "__proto__", once, with its tally. *)
Record counted (seen : list string) (o : wordFreq) : Prop := {
  counted_nodup : NoDup (map fst o);
  counted_entry : forall k c, In (k, c) o ->
                              k <> "__proto__" /\ c = CNum (tally seen k)
                              /\ In k seen;
  counted_seen : forall k, In k seen -> k <> "__proto__" -> In k (map fst o)
}.

(** An entry whose stored count is a number, and that number. *)
Definition numeric (e : string * count) : Prop :=
  exists n, snd e = CNum n.

Definition count_of (e : string * count) : nat :=
  match snd e with
  | CNum n => n
  | CStr _ => 0
  end.

(** [e1] may come before [e2]. *)
Definition not_below (e1 e2 : string * count) : Prop :=
  count_of e2 <= count_of e1.

(** A stored string begins as the text of an inherited value does, so it
    is no numeric literal and [ToNumber] maps it to [NaN]. *)
Definition inherited_text (c : count) : Prop :=
  match c with
  | CNum _ => True
  | CStr s => exists rest, s = String "f" rest \/ s = String "[" rest
  end.

(** ** analyzeSentiment *)

Definition positiveWords : list string :=
  [ "good"; "great"; "excellent"; "amazing"; "wonderful"; "fantastic";
    "love"; "best"; "happy"; "perfect" ].

Definition negativeWords : list string :=
  [ "bad"; "terrible"; "awful"; "horrible"; "worst"; "hate";
    "disappointing"; "sad"; "angry"; "poor" ].

(** [set.forEach(word => { n += (lowerText.match(new RegExp(word, "g"))
    || []).length })] from [n = 0]. *)
Definition count_all (set : list string) (lowerText : string) : nat :=
  fold_left (fun n word => n + Js.count_literal word lowerText) set 0.

Definition sentiment_label (positiveCount negativeCount : nat) : string :=
  if (negativeCount <? positiveCount)%nat then "Positive"
  else if (positiveCount <? negativeCount)%nat then "Negative"
  else "Neutral".

Definition analyzeSentiment (text : string) : string :=
  let lowerText := Js.toLowerCase text in
  let positiveCount := count_all positiveWords lowerText in
  let negativeCount := count_all negativeWords lowerText in
  "**Sentiment:** " +:+ sentiment_label positiveCount negativeCount
    +:+ " (Positive: " +:+ Js.nat_to_string positiveCount
    +:+ ", Negative: " +:+ Js.nat_to_string negativeCount +:+ ")".

(** ** analyzeStatistics, analyzeReadability *)

Definition is_sentence_end (c : ascii) : bool :=
  Ascii.eqb c "." || Ascii.eqb c "!" || Ascii.eqb c "?".

Definition is_vowel (c : ascii) : bool :=
  existsb (Ascii.eqb c) [ "a"; "e"; "i"; "o"; "u"; "y" ]%char.

(** [(text.match(/\b[\w]+\b/g) || []).length]. *)
Definition word_count (text : string) : nat :=
  List.length (Js.runs Js.is_word_char text).

(** [n || 1] on a count. *)
Definition or_one (n : nat) : nat :=
  match n with
  | O => 1
  | S _ => n
  end.

(** [(text.match(/[.!?]+/g) || []).length || 1]. *)
Definition sentence_count (text : string) : nat :=
  or_one (List.length (Js.runs is_sentence_end text)).

Definition countSyllables (text : string) : nat :=
  fold_left
    (fun syllableCount word =>
       syllableCount + Nat.max 1 (Js.count_chars is_vowel word))
    (map Js.toLowerCase (Js.runs Js.is_word_char text)) 0.

(** The quotient of two counts as JavaScript's [/] returns it, before it
    is rounded to a double: a division by zero gives [NaN] (0/0) or
    [Infinity]. *)
Inductive quotient :=
| Ratio (numerator denominator : nat)
| QNaN
| QInfinity.

Definition divide (a b : nat) : quotient :=
  match b, a with
  | O, O => QNaN
  | O, S _ => QInfinity
  | S _, _ => Ratio a b
  end.

Record statistics := mkStatistics {
  words : nat;
  sentences : nat;
  characters : nat;
  charactersNoSpaces : nat;
  avgWordLength : quotient;
  avgWordsPerSentence : quotient
}.

(** The numbers [analyzeStatistics] computes before it formats them. *)
Definition text_statistics (text : string) : statistics :=
  let words := word_count text in
  let sentences := sentence_count text in
  let characters := String.length text in
  let charactersNoSpaces :=
    String.length (Js.remove_chars Js.is_space text) in
  mkStatistics words sentences characters charactersNoSpaces
               (divide charactersNoSpaces words)
               (divide words sentences).

(** The engine and the host: double-precision arithmetic and its
    formatting, the wording of a [TypeError], the agent that calls the
    skill and the [Deduplicator] behind [this.tracker]. *)
Section Host.

(** [q.toFixed(1)] for the double nearest to the quotient [q]. *)
Variable toFixed1 : quotient -> string.

(** Double-precision numbers: [gradeLevel words sentences syllables] is
    [Math.max(0, ((0.39 * words) / sentences + (11.8 * syllables) /
    words - 15.59).toFixed(1))]. *)
Variable double : Type.
Variable gradeLevel : nat -> nat -> nat -> double.
Variable double_lt : double -> nat -> bool.
Variable double_to_string : double -> string.

(** The message of the [TypeError] that calling method [m] on the
    non-string value [v] raises. *)
Variable TypeError_message : value -> string -> string.

(** [this.caller]. *)
Variable caller : string.

(** The [Deduplicator] of [../utils/dedupe]. *)
Variable Deduplicator : Type.
Variable isDuplicate : Deduplicator -> string -> object -> bool.
Variable trackRun : Deduplicator -> string -> object -> Deduplicator.

Definition analyzeStatistics (text : string) : string :=
  let st := text_statistics text in
  "**Text Statistics:**" +:+ nl
    +:+ "- Words: " +:+ Js.nat_to_string (words st) +:+ nl
    +:+ "- Sentences: " +:+ Js.nat_to_string (sentences st) +:+ nl
    +:+ "- Characters: " +:+ Js.nat_to_string (characters st) +:+ nl
    +:+ "- Characters (no spaces): "
    +:+ Js.nat_to_string (charactersNoSpaces st) +:+ nl
    +:+ "- Avg word length: " +:+ toFixed1 (avgWordLength st) +:+ nl
    +:+ "- Avg words per sentence: "
    +:+ toFixed1 (avgWordsPerSentence st).

Definition readabilityLevel (g : double) : string :=
  if double_lt g 6 then "Very Easy (5th grade)"
  else if double_lt g 9 then "Easy (6th-8th grade)"
  else if double_lt g 13 then "Average (9th-12th grade)"
  else if double_lt g 16 then "Difficult (College)"
  else "Very Difficult (Graduate)".

Definition analyzeReadability (text : string) : string :=
  let words := word_count text in
  let sentences := sentence_count text in
  let syllables := countSyllables text in
  let g := gradeLevel words sentences syllables in
  "**Readability Analysis:**" +:+ nl
    +:+ "- Grade Level: " +:+ double_to_string g +:+ nl
    +:+ "- Level: " +:+ readabilityLevel g +:+ nl
    +:+ "- Syllables: " +:+ Js.nat_to_string syllables.

(** ** The handler *)

Record error := mkError { message : string }.

Inductive completion (A : Type) :=
| Normal (a : A)
| Throw (e : error).
Arguments Normal {A} a.
Arguments Throw {A} e.

Inductive analysis := Keywords | Sentiment | Statistics | Readability.

(** What a call does, in order; [Ran] marks the entry into one of the
    four analysis functions. *)
Inductive event :=
| IsDuplicate
| Log (msg : string)
| Ran (f : analysis)
| Introspect (msg : string)
| TrackRun.

Record state := mkState {
  tracker : Deduplicator;
  trace : list event
}.

Definition M (A : Type) : Type := state -> completion A * state.

Definition ret {A} (a : A) : M A := fun s => (Normal a, s).

Definition throw {A} (e : error) : M A := fun s => (Throw e, s).

Definition bind {A B} (m : M A) (k : A -> M B) : M B :=
  fun s =>
    match m s with
    | (Normal a, s') => k a s'
    | (Throw e, s') => (Throw e, s')
    end.

(** [try { body } catch (error) { handle }]. *)
Definition try_catch {A} (body : M A) (handle : error -> M A) : M A :=
  fun s =>
    match body s with
    | (Normal a, s') => (Normal a, s')
    | (Throw e, s') => handle e s'
    end.

Notation "'let*' x := m 'in' k" := (bind m (fun x => k))
  (at level 10, x name, m at level 100, k at level 200).
Notation "m ';;' k" := (bind m (fun _ => k))
  (at level 100, k at level 200, right associativity).

Definition emit (e : event) : M unit :=
  fun s => (Normal tt, mkState (tracker s) (trace s ++ [e])).

(** [this.tracker.isDuplicate(key, params)]. *)
Definition tracker_isDuplicate (key : string) (params : object) : M bool :=
  fun s => (Normal (isDuplicate (tracker s) key params),
            mkState (tracker s) (trace s ++ [IsDuplicate])).

(** [this.tracker.trackRun(key, params)]. *)
Definition tracker_trackRun (key : string) (params : object) : M unit :=
  fun s => (Normal tt,
            mkState (trackRun (tracker s) key params)
                    (trace s ++ [TrackRun])).

(** [this.super.handlerProps.log(msg)], [this.super.introspect(msg)]. *)
Definition log (msg : string) : M unit := emit (Log msg).
Definition introspect (msg : string) : M unit := emit (Introspect msg).

(** The first thing an analysis function does with [text] is a method
    call, [toLowerCase] or [match]; only a string has these methods. *)
Definition first_method (f : analysis) : string :=
  match f with
  | Keywords | Sentiment => "toLowerCase"
  | Statistics | Readability => "match"
  end.

Definition analyze (f : analysis) (text : string) : string :=
  match f with
  | Keywords => analyzeKeywords text
  | Sentiment => analyzeSentiment text
  | Statistics => analyzeStatistics text
  | Readability => analyzeReadability text
  end.

(** [await this.analyze...(text)]. *)
Definition run (f : analysis) (text : value) : M string :=
  emit (Ran f) ;;
  match text with
  | VStr s => ret (analyze f s)
  | v => throw (mkError (TypeError_message v (first_method f)))
  end.

(** The cases of [switch (analysis_type)]; anything else is the
    [default] case. *)
Definition route (analysis_type : value) : option analysis :=
  match analysis_type with
  | VStr s =>
      if String.eqb s "keywords" then Some Keywords
      else if String.eqb s "sentiment" then Some Sentiment
      else if String.eqb s "statistics" then Some Statistics
      else if String.eqb s "readability" then Some Readability
      else None
  | _ => None
  end.

(** [`${analysis_type}`] for a routed type. *)
Definition analysis_name (f : analysis) : string :=
  match f with
  | Keywords => "keywords"
  | Sentiment => "sentiment"
  | Statistics => "statistics"
  | Readability => "readability"
  end.

Definition duplicate_notice : string :=
  "This text has already been analyzed. The results are shown above.".

(** The parameter pattern [{ text = "", analysis_type = "keywords" }]:
    a missing property takes its default. *)
Definition text_of (args : object) : value :=
  match get "text" args with Some v => v | None => VStr "" end.

Definition analysis_type_of (args : object) : value :=
  match get "analysis_type" args with
  | Some v => v
  | None => VStr "keywords"
  end.

(** The object literal [{ text, analysis_type }]. *)
Definition params (text analysis_type : value) : object :=
  [ ("text", text); ("analysis_type", analysis_type) ].

Definition handler_body (text analysis_type : value) : M string :=
  let* dup := tracker_isDuplicate name (params text analysis_type) in
  if dup : bool then
    log (name +:+ " was called with duplicate parameters, skipping.") ;;
    ret duplicate_notice
  else
    match route analysis_type with
    | None => ret "Invalid analysis type specified."
    | Some f =>
        let* result := run f text in
        introspect (caller +:+ ": Analyzing text for "
                    +:+ analysis_name f +:+ ".") ;;
        tracker_trackRun name (params text analysis_type) ;;
        ret result
    end.

Definition handler (args : object) : M string :=
  let text := text_of args in
  let analysis_type := analysis_type_of args in
  try_catch
    (handler_body text analysis_type)
    (fun error =>
       log ("text-analyzer raised an error: " +:+ message error) ;;
       ret ("An error occurred while analyzing the text: "
            +:+ message error)).

(** ** Observing a call *)

(** The composite the handler passes to the tracker. *)
Definition tracked (args : object) : object :=
  params (text_of args) (analysis_type_of args).

Definition duplicate (s : state) (args : object) : bool :=
  isDuplicate (tracker s) name (tracked args).

(** The events a call appends to the trace. *)
Definition events (args : object) (s : state) : list event :=
  drop (List.length (trace s)) (trace (snd (handler args s))).

Definition is_Ran (e : event) : bool :=
  match e with Ran _ => true | _ => false end.

(** How many analysis functions were entered. *)
Definition analyses (evs : list event) : nat :=
  List.length (List.filter is_Ran evs).

Definition skip_message : string :=
  name +:+ " was called with duplicate parameters, skipping.".

Definition introspect_message (f : analysis) : string :=
  caller +:+ ": Analyzing text for " +:+ analysis_name f +:+ ".".

Definition error_text (msg : string) : string :=
  "An error occurred while analyzing the text: " +:+ msg.

Definition error_log (msg : string) : string :=
  "text-analyzer raised an error: " +:+ msg.

Definition is_string (v : value) : bool :=
  match v with VStr _ => true | _ => false end.

(** The four ways a call can go. *)
Inductive path (args : object) (s : state) : completion string -> state -> Prop :=
| path_duplicate :
    duplicate s args = true ->
    path args s (Normal duplicate_notice)
         (mkState (tracker s) (trace s ++ [IsDuplicate; Log skip_message]))
| path_invalid :
    duplicate s args = false ->
    route (analysis_type_of args) = None ->
    path args s (Normal "Invalid analysis type specified.")
         (mkState (tracker s) (trace s ++ [IsDuplicate]))
| path_success f text :
    duplicate s args = false ->
    route (analysis_type_of args) = Some f ->
    text_of args = VStr text ->
    path args s (Normal (analyze f text))
         (mkState (trackRun (tracker s) name (tracked args))
                  (trace s ++ [IsDuplicate; Ran f;
                               Introspect (introspect_message f); TrackRun]))
| path_error f :
    duplicate s args = false ->
    route (analysis_type_of args) = Some f ->
    is_string (text_of args) = false ->
    path args s
         (Normal (error_text
                    (TypeError_message (text_of args) (first_method f))))
         (mkState (tracker s)
                  (trace s ++ [IsDuplicate; Ran f;
                               Log (error_log (TypeError_message
                                                 (text_of args)
                                                 (first_method f)))])).

End Host.

Arguments Normal {A} a.
Arguments Throw {A} e.

End TextAnalyzer.

(* ===================================================================== *)
(** * The skill-dispatch core of the specification                        *)
(* ===================================================================== *)

Module SkillCore.

Import Json.

(** ** Deduplicator: canonical serialization and records *)

(** Modelled from the spec: the two characters the JSON-like serialization
    escapes. *)
Definition dquote : ascii := "034"%char.
Definition backslash : ascii := "092"%char.

(** Modelled from the spec: the serialization of a string inside the
    JSON-like composite key (the Deduplicator has no source file); a
    quote or a backslash is escaped with a backslash. *)
Fixpoint escape (s : string) : string :=
  match s with
  | EmptyString => EmptyString
  | String c s' =>
      if Ascii.eqb c dquote || Ascii.eqb c backslash
      then String backslash (String c (escape s'))
      else String c (escape s')
  end.

(** Modelled from the spec: a quoted string of the JSON-like
    serialization. *)
Definition quote (s : string) : string :=
  String dquote (escape s +:+ String dquote EmptyString).

(** Modelled from the spec: an integer of the JSON-like serialization, in
    decimal. *)
Definition Z_to_string (n : Z) : string :=
  NilEmpty.string_of_int (Z.to_int n).

(** Modelled from the spec: the order of object keys, by code unit. *)
Definition key_le (kv1 kv2 : string * value) : Prop :=
  String.le (fst kv1) (fst kv2).

(** Modelled from the spec: the key order is decidable, so that it can be
    sorted by. *)
#[global] Instance key_le_dec : RelDecision key_le.
Proof. intros kv1 kv2. unfold key_le. apply _. Defined.

(** Modelled from the spec: "stable-sorted key order", the first step of
    canonicalization (§3, ExecutionRecord). *)
Definition sort_keys (m : list (string * value)) : list (string * value) :=
  merge_sort key_le m.

(** Modelled from the spec: canonicalization sorts the keys of the
    argument object and of every object nested in it. *)
Fixpoint canonical (v : value) : value :=
  match v with
  | VArr l => VArr (map canonical l)
  | VObj m =>
      VObj (sort_keys (map (fun kv => (fst kv, canonical (snd kv))) m))
  | _ => v
  end.

(** Modelled from the spec: "then serialized", the JSON-like text of a
    value, its properties in the order given. *)
Fixpoint print (v : value) : string :=
  match v with
  | VNull => "null"
  | VBool true => "true"
  | VBool false => "false"
  | VNum n => Z_to_string n
  | VStr s => quote s
  | VArr l => "[" +:+ Js.join "," (map print l) +:+ "]"
  | VObj m =>
      "{" +:+ Js.join "," (map (fun kv => quote (fst kv) +:+ ":"
                                         +:+ print (snd kv)) m)
          +:+ "}"
  end.

(** Modelled from the spec: "canonical JSON-like serialization of
    arguments with object keys sorted" (§4.2). *)
Definition serialize (arguments : object) : string :=
  print (canonical (VObj arguments)).

(** Modelled from the spec: the composite key, "skill name + canonical
    JSON-like serialization of arguments" (§4.2, Glossary). *)
Definition composite_key (skillName : string) (arguments : object) : string :=
  skillName +:+ serialize arguments.

(** Modelled from the spec: the Deduplicator's ExecutionRecords, at most
    one per composite key, each holding the cached result (§3). *)
Abbreviation Deduplicator := (gmap string string).

(** Modelled from the spec: a fresh Deduplicator begins with zero
    records (§4.2). *)
Definition fresh : Deduplicator := ∅.

(** Modelled from the spec: [isDuplicate(skillName, arguments) -> bool]
    (§4.2). *)
Definition isDuplicate (d : Deduplicator) (skillName : string)
           (arguments : object) : bool :=
  bool_decide (is_Some (d !! composite_key skillName arguments)).

(** Modelled from the spec: [recordResult(skillName, arguments, result)];
    recording the same key twice overwrites (§4.2). *)
Definition recordResult (d : Deduplicator) (skillName : string)
           (arguments : object) (result : string) : Deduplicator :=
  <[composite_key skillName arguments := result]> d.

(** Modelled from the spec: [getCachedResult(skillName, arguments) ->
    result | NotFound] (§4.2). *)
Definition getCachedResult (d : Deduplicator) (skillName : string)
           (arguments : object) : option string :=
  d !! composite_key skillName arguments.

(** ** Reading a serialization back *)

(** The characters that can follow a printed value: a separator or the end
    of an array or an object. *)
Definition closes (c : ascii) : bool :=
  Ascii.eqb c "," || Ascii.eqb c "]" || Ascii.eqb c "}".

Definition delimited (r : string) : Prop :=
  match r with
  | EmptyString => True
  | String c _ => closes c = true
  end.

(** The characters a printed value can begin with. *)
Definition opens (c : ascii) : bool :=
  Js.is_digit c
  || existsb (Ascii.eqb c) [ "-"; "n"; "t"; "f"; dquote; "["; "{" ]%char.

(** The first character of a printed value tells its constructor. *)
Definition head_class (c : ascii) : nat :=
  if Ascii.eqb c "n" then 0
  else if Ascii.eqb c "t" then 1
  else if Ascii.eqb c "f" then 2
  else if Js.is_digit c || Ascii.eqb c "-" then 3
  else if Ascii.eqb c dquote then 4
  else if Ascii.eqb c "[" then 5
  else if Ascii.eqb c "{" then 6
  else 7.

Definition class_of (v : value) : nat :=
  match v with
  | VNull => 0
  | VBool true => 1
  | VBool false => 2
  | VNum _ => 3
  | VStr _ => 4
  | VArr _ => 5
  | VObj _ => 6
  end.

(** Nothing but [x] prints to a text that begins, before a delimiter, as
    the text of [x] does. *)
Definition item_inj {A : Type} (pr : A -> string) (x : A) : Prop :=
  forall y k k',
    delimited k -> delimited k' ->
    pr x +:+ k = pr y +:+ k' -> x = y /\ k = k'.

(** Canonicalization of one property of an object. *)
Definition canonical_entry (kv : string * value) : string * value :=
  (fst kv, canonical (snd kv)).

(** ** Schema Validator *)

(** Modelled from the spec: the primitive kinds of a parameter (§3). *)
Inductive kind :=
| KString
| KNumber
| KBoolean
| KEnum (allowed : list string)
| KArray
| KObject.

(** Modelled from the spec: one parameter of a parameterSchema: name,
    kind, optionality, numeric bounds (§4.1 rule 5) and the default that
    normalization applies (§4.1, Output). *)
Record parameter := mkParameter {
  p_name : string;
  p_kind : kind;
  p_required : bool;
  p_min : option Z;
  p_max : option Z;
  p_default : option value
}.

(** Modelled from the spec: a parameterSchema (§3); unknown keys are
    accepted only if the schema allows additional properties (§4.1
    rule 2). *)
Record schema := mkSchema {
  parameters : list parameter;
  additionalProperties : bool
}.

(** Modelled from the spec: the validation failures of §4.1. *)
Inductive violation :=
| MissingParameter (name : string)
| UnknownParameter (name : string)
| TypeMismatch (name expectedKind actualKind : string)
| InvalidEnumValue (name : string) (allowedValues : list string)
| OutOfRange (name : string) (min max : option Z).

(** Modelled from the spec: "present in [arguments]" (§4.1 rule 1). *)
Definition has_key (k : string) (o : object) : bool :=
  match get k o with Some _ => true | None => false end.

(** Modelled from the spec: a key that is not "absent from the schema"
    (§4.1 rule 2). *)
Definition declares (sc : schema) (k : string) : bool :=
  existsb (fun p => String.eqb (p_name p) k) (parameters sc).

(** Modelled from the spec: the first failure of the function [check]
    along a list (§4.1, "first failure wins"). *)
Fixpoint first_failure {A} (check : A -> option violation) (l : list A)
  : option violation :=
  match l with
  | [] => None
  | x :: l' =>
      match check x with
      | Some e => Some e
      | None => first_failure check l'
      end
  end.

(** Modelled from the spec: rule 1, every required parameter is
    present. *)
Definition check_required (arguments : object) (p : parameter)
  : option violation :=
  if p_required p && negb (has_key (p_name p) arguments)
  then Some (MissingParameter (p_name p)) else None.

(** Modelled from the spec: rule 2, no key absent from the schema. *)
Definition check_known (sc : schema) (kv : string * value)
  : option violation :=
  if additionalProperties sc || declares sc (fst kv)
  then None else Some (UnknownParameter (fst kv)).

(** Modelled from the spec: the kinds of §4.1 rule 3 by name; an
    enumerated string is a string at run time. *)
Definition kind_name (k : kind) : string :=
  match k with
  | KString | KEnum _ => "string"
  | KNumber => "number"
  | KBoolean => "boolean"
  | KArray => "array"
  | KObject => "object"
  end.

(** Modelled from the spec: the runtime kind of a value (§4.1 rule 3). *)
Definition runtime_kind (v : value) : string :=
  match v with
  | VNull => "null"
  | VBool _ => "boolean"
  | VNum _ => "number"
  | VStr _ => "string"
  | VArr _ => "array"
  | VObj _ => "object"
  end.

(** Modelled from the spec: rule 3, the runtime kind of a present value
    matches the declared kind. *)
Definition check_kind (arguments : object) (p : parameter)
  : option violation :=
  match get (p_name p) arguments with
  | Some v =>
      if String.eqb (runtime_kind v) (kind_name (p_kind p)) then None
      else Some (TypeMismatch (p_name p) (kind_name (p_kind p))
                              (runtime_kind v))
  | None => None
  end.

(** Modelled from the spec: rule 4, an enumerated string is a member of
    the allowed set. *)
Definition check_enum (arguments : object) (p : parameter)
  : option violation :=
  match p_kind p, get (p_name p) arguments with
  | KEnum allowed, Some (VStr s) =>
      if existsb (String.eqb s) allowed then None
      else Some (InvalidEnumValue (p_name p) allowed)
  | _, _ => None
  end.

(** Modelled from the spec: the declared bounds, inclusive, where they are
    declared (§4.1 rule 5). *)
Definition above (lo : option Z) (n : Z) : bool :=
  match lo with Some m => (m <=? n)%Z | None => true end.

Definition below (hi : option Z) (n : Z) : bool :=
  match hi with Some m => (n <=? m)%Z | None => true end.

(** Modelled from the spec: rule 5, a number lies within the declared
    bounds, inclusive. *)
Definition check_range (arguments : object) (p : parameter)
  : option violation :=
  match p_kind p, get (p_name p) arguments with
  | KNumber, Some (VNum n) =>
      if above (p_min p) n && below (p_max p) n then None
      else Some (OutOfRange (p_name p) (p_min p) (p_max p))
  | _, _ => None
  end.

(** Modelled from the spec: "defaults applied": a parameter that is
    absent and has a default takes it. *)
Definition defaults (sc : schema) (arguments : object) : object :=
  flat_map (fun p =>
              match p_default p with
              | Some v =>
                  if has_key (p_name p) arguments then []
                  else [(p_name p, v)]
              | None => []
              end) (parameters sc).

(** Modelled from the spec: the Schema Validator (§4.1): the five rules
    in their order, the first failure wins; on success the normalized
    argument map. *)
Definition validate (sc : schema) (arguments : object)
  : violation + object :=
  match first_failure (check_required arguments) (parameters sc) with
  | Some e => inl e
  | None =>
  match first_failure (check_known sc) arguments with
  | Some e => inl e
  | None =>
  match first_failure (check_kind arguments) (parameters sc) with
  | Some e => inl e
  | None =>
  match first_failure (check_enum arguments) (parameters sc) with
  | Some e => inl e
  | None =>
  match first_failure (check_range arguments) (parameters sc) with
  | Some e => inl e
  | None => inr (arguments ++ defaults sc arguments)
  end end end end end.

(** Modelled from the spec: a bound inside the message of [OutOfRange]. *)
Definition bound_to_string (b : option Z) : string :=
  match b with Some n => Z_to_string n | None => "none" end.

(** Modelled from the spec: the message of a validation failure, written
    as in the example scenario of §8, ["UnknownParameter(extra)"]. *)
Definition violation_message (e : violation) : string :=
  match e with
  | MissingParameter n => "MissingParameter(" +:+ n +:+ ")"
  | UnknownParameter n => "UnknownParameter(" +:+ n +:+ ")"
  | TypeMismatch n ex ac =>
      "TypeMismatch(" +:+ n +:+ ", " +:+ ex +:+ ", " +:+ ac +:+ ")"
  | InvalidEnumValue n allowed =>
      "InvalidEnumValue(" +:+ n +:+ ", [" +:+ Js.join ", " allowed
        +:+ "])"
  | OutOfRange n lo hi =>
      "OutOfRange(" +:+ n +:+ ", " +:+ bound_to_string lo +:+ ", "
        +:+ bound_to_string hi +:+ ")"
  end.

(** Modelled from the spec: rule 1 holds, every required parameter of the
    schema is among the arguments. *)
Definition required_present (sc : schema) (arguments : object) : bool :=
  forallb (fun p => implb (p_required p) (has_key (p_name p) arguments))
          (parameters sc).

(** The parameter schema the text-analyzer skill declares. *)
Definition textAnalyzer_parameters : schema :=
  mkSchema
    [ mkParameter "text" KString true None None None;
      mkParameter "analysis_type"
                  (KEnum ["keywords"; "sentiment"; "statistics";
                          "readability"])
                  true None None None ]
    false.

(** ** Skill Registry and Dispatcher *)

Section Dispatch.

(** Modelled from the spec: what handlers act on, the world outside the
    core ("it performs I/O", §5). *)
Variable World : Type.

(** Modelled from the spec: how a handler invocation ends: a string
    result, an error, or the configured deadline passing first
    (§4.4, §5). *)
Inductive handler_result :=
| Returned (text : string)
| Raised (message : string)
| TimedOut.

(** Modelled from the spec: a handler, "an asynchronous function taking a
    validated argument map and returning a string result or failing with an
    error" (§3), as a function of the world it acts on. *)
Definition handler_fn : Type := object -> World -> handler_result * World.

(** Modelled from the spec: a SkillDescriptor as it is offered to
    [register] (§3); the handler may be absent. *)
Record SkillDescriptor := mkDescriptor {
  sd_name : string;
  sd_description : string;
  sd_parameterSchema : schema;
  sd_handler : option handler_fn
}.

(** Modelled from the spec: a registered skill: a descriptor whose
    handler is present. *)
Record skill := mkSkill {
  sk_name : string;
  sk_description : string;
  sk_parameterSchema : schema;
  sk_handler : handler_fn
}.

(** Modelled from the spec: the Registry, its skills in insertion
    order, one per name (§4.3). *)
Definition Registry : Type := list skill.

(** Modelled from the spec: re-registration with the same name replaces
    the prior descriptor (§3), here at the place it holds in the list. *)
Fixpoint replace_skill (s : skill) (r : Registry) : option Registry :=
  match r with
  | [] => None
  | s' :: r' =>
      if String.eqb (sk_name s') (sk_name s) then Some (s :: r')
      else option_map (cons s') (replace_skill s r')
  end.

(** Modelled from the spec: the failure of [register] (§4.3). *)
Inductive InvalidDescriptor := invalidDescriptor.

(** Modelled from the spec: [register(descriptor)] adds or replaces by
    name and fails with [InvalidDescriptor] if the name is empty or the
    handler is absent (§4.3). *)
Definition register (d : SkillDescriptor) (r : Registry)
  : InvalidDescriptor + Registry :=
  match sd_name d, sd_handler d with
  | EmptyString, _ => inl invalidDescriptor
  | _, None => inl invalidDescriptor
  | _, Some h =>
      let s := mkSkill (sd_name d) (sd_description d)
                       (sd_parameterSchema d) h in
      match replace_skill s r with
      | Some r' => inr r'
      | None => inr (r ++ [s])
      end
  end.

(** Modelled from the spec: [resolve(name) -> descriptor | NotFound]
    (§4.3). *)
Fixpoint resolve (r : Registry) (name : string) : option skill :=
  match r with
  | [] => None
  | s :: r' => if String.eqb (sk_name s) name then Some s else resolve r' name
  end.

(** Modelled from the spec: [list()], in insertion order (§4.3). *)
Definition list_skills (r : Registry) : list skill := r.

(** Modelled from the spec: a CallRequest (§3). *)
Record CallRequest := mkRequest {
  skillName : string;
  arguments : object
}.

(** Modelled from the spec: the kinds of failure of a dispatch (§4.4,
    §7). *)
Inductive failure_kind :=
| SkillNotFound
| ValidationFailed
| HandlerError
| HandlerTimeout.

(** Modelled from the spec: a DispatchOutcome (§4.4). *)
Inductive DispatchOutcome :=
| Success (text : string)
| Failure (kind : failure_kind) (message : string).

(** Modelled from the spec: what a dispatch session holds: the injected
    Deduplicator and the world of the handlers; [invocations] is the
    call counter of P1, P4 and P5, kept as the list of handler
    invocations so far. *)
Record session := mkSession {
  deduplicator : Deduplicator;
  world : World;
  invocations : list (string * object)
}.

(** Modelled from the spec: the Dispatcher's algorithm, steps 1 to 5 of
    §4.4, each step short-circuiting the next on failure. *)
Definition dispatch (r : Registry) (req : CallRequest) (s : session)
  : DispatchOutcome * session :=
  match resolve r (skillName req) with
  | None => (Failure SkillNotFound (skillName req), s)
  | Some sk =>
  match validate (sk_parameterSchema sk) (arguments req) with
  | inl e => (Failure ValidationFailed (violation_message e), s)
  | inr normalizedArguments =>
  match getCachedResult (deduplicator s) (skillName req)
                        normalizedArguments with
  | Some cachedResult => (Success cachedResult, s)
  | None =>
      let (res, w) := sk_handler sk normalizedArguments (world s) in
      let calls :=
        invocations s ++ [(skillName req, normalizedArguments)] in
      match res with
      | Returned result =>
          (Success result,
           mkSession (recordResult (deduplicator s) (skillName req)
                                   normalizedArguments result)
                     w calls)
      | Raised msg =>
          (Failure HandlerError msg,
           mkSession (deduplicator s) w calls)
      | TimedOut =>
          (Failure HandlerTimeout (skillName req),
           mkSession (deduplicator s) w calls)
      end
  end end end.

(** Modelled from the spec: step 3 would find a record, the session
    already holds one for the request (§4.4). *)
Definition recorded (r : Registry) (req : CallRequest) (s : session) : bool :=
  match resolve r (skillName req) with
  | Some sk =>
      match validate (sk_parameterSchema sk) (arguments req) with
      | inr normalizedArguments =>
          isDuplicate (deduplicator s) (skillName req) normalizedArguments
      | inl _ => false
      end
  | None => false
  end.

End Dispatch.

End SkillCore.

(* ===================================================================== *)
(** * Double-precision numbers                                            *)
(* ===================================================================== *)

Module Double.

(** A double: a finite value [n / d] with [0 < d], an infinity or [NaN].
    Zero carries no sign, and the finite values stay within the range of
    normal doubles; the quotients of counts computed here do. *)
Inductive double :=
| DFinite (n d : Z)
| DInfinity (negative : bool)
| DNaN.

(** The double nearest to [n / d] for [0 < n] and [0 < d], ties to the
    even significand: the significand [m] of 53 bits and the exponent [e]
    with [m * 2 ^ e] nearest to [n / d]. *)
Definition round_pos (n d : Z) : Z * Z :=
  let l := (Z.log2 n - Z.log2 d)%Z in
  let reaches :=
    (if 0 <=? l then d * 2 ^ l <=? n else d <=? n * 2 ^ (- l))%Z in
  let e := ((if reaches then l else l - 1) - 52)%Z in
  let n' := (if 0 <=? e then n else n * 2 ^ (- e))%Z in
  let d' := (if 0 <=? e then d * 2 ^ e else d)%Z in
  let m := (n' / d')%Z in
  let r := (n' mod d')%Z in
  let m' :=
    (if (d' <? 2 * r) || ((d' =? 2 * r) && Z.odd m) then m + 1 else m)%Z in
  (if 0 <=? e then (m' * 2 ^ e, 1) else (m', 2 ^ (- e)))%Z.

(** The double nearest to [n / d], for [0 < d]. *)
Definition round (n d : Z) : double :=
  if (n =? 0)%Z then DFinite 0 1
  else if (0 <? n)%Z then let (a, b) := round_pos n d in DFinite a b
  else let (a, b) := round_pos (- n) d in DFinite (- a) b.

Definition of_nat (k : nat) : double := round (Z.of_nat k) 1.

Definition neg (x : double) : double :=
  match x with
  | DFinite n d => DFinite (- n) d
  | DInfinity s => DInfinity (negb s)
  | DNaN => DNaN
  end.

Definition add (x y : double) : double :=
  match x, y with
  | DFinite n1 d1, DFinite n2 d2 => round (n1 * d2 + n2 * d1) (d1 * d2)
  | DInfinity s, DFinite _ _ | DFinite _ _, DInfinity s => DInfinity s
  | DInfinity s, DInfinity s' => if Bool.eqb s s' then DInfinity s else DNaN
  | _, _ => DNaN
  end.

Definition sub (x y : double) : double := add x (neg y).

Definition mul (x y : double) : double :=
  match x, y with
  | DFinite n1 d1, DFinite n2 d2 => round (n1 * n2) (d1 * d2)
  | DInfinity s, DFinite n _ | DFinite n _, DInfinity s =>
      if (n =? 0)%Z then DNaN else DInfinity (xorb s (n <? 0)%Z)
  | DInfinity s, DInfinity s' => DInfinity (xorb s s')
  | _, _ => DNaN
  end.

Definition div (x y : double) : double :=
  match x, y with
  | DFinite n1 d1, DFinite n2 d2 =>
      if (n2 =? 0)%Z then
        if (n1 =? 0)%Z then DNaN else DInfinity (n1 <? 0)%Z
      else if (0 <? n2)%Z then round (n1 * d2) (d1 * n2)
      else round (- (n1 * d2)) (d1 * - n2)
  | DFinite _ _, DInfinity _ => DFinite 0 1
  | DInfinity s, DFinite n _ => DInfinity (xorb s (n <? 0)%Z)
  | _, _ => DNaN
  end.

(** [x < k] for a count [k]. *)
Definition lt (x : double) (k : nat) : bool :=
  match x with
  | DFinite n d => (n <? Z.of_nat k * d)%Z
  | DInfinity s => s
  | DNaN => false
  end.

(** [Math.max(0, x)]. *)
Definition max0 (x : double) : double :=
  match x with
  | DFinite n d => if (n <? 0)%Z then DFinite 0 1 else x
  | DInfinity s => if s then DFinite 0 1 else x
  | DNaN => DNaN
  end.

(** The tenths nearest to the magnitude of a finite value, the larger
    where two are equally near, as [toFixed(1)] takes them. *)
Definition tenths (n d : Z) : Z := ((20 * Z.abs n + d) / (2 * d))%Z.

(** [x.toFixed(1)], for a magnitude below 1e21. *)
Definition toFixed1 (x : double) : string :=
  match x with
  | DFinite n d =>
      (if (n <? 0)%Z then "-" else "")
        +:+ Js.N_to_string (Z.to_N (tenths n d / 10)) +:+ "."
        +:+ Js.N_to_string (Z.to_N (tenths n d mod 10))
  | DInfinity s => if s then "-Infinity" else "Infinity"
  | DNaN => "NaN"
  end.

(** [Number(x.toFixed(1))]: the double nearest to the decimal. *)
Definition of_toFixed1 (x : double) : double :=
  match x with
  | DFinite n d =>
      round (if (n <? 0)%Z then - tenths n d else tenths n d) 10
  | _ => x
  end.

(** [`${x}`] for [x] not negative and the double nearest to a number of
    tenths, as [Math.max(0, y.toFixed(1))] is: the decimal without a
    trailing ".0". *)
Definition tenths_to_string (x : double) : string :=
  match x with
  | DFinite n d =>
      Js.N_to_string (Z.to_N (tenths n d / 10))
        +:+ (if (tenths n d mod 10 =? 0)%Z then ""
             else "." +:+ Js.N_to_string (Z.to_N (tenths n d mod 10)))
  | DInfinity s => if s then "-Infinity" else "Infinity"
  | DNaN => "NaN"
  end.

End Double.

(* ===================================================================== *)
(** * Fixtures: a concrete host and a test handler                        *)
(* ===================================================================== *)

Module Fixtures.

Import Json.

(** [q.toFixed(1)] for the double nearest to the quotient [q] of two
    counts. *)
Definition toFixed1 (q : TextAnalyzer.quotient) : string :=
  match q with
  | TextAnalyzer.Ratio a b =>
      Double.toFixed1 (Double.div (Double.of_nat a) (Double.of_nat b))
  | TextAnalyzer.QNaN => "NaN"
  | TextAnalyzer.QInfinity => "Infinity"
  end.

(** [Math.max(0, ((0.39 * words) / sentences + (11.8 * syllables) / words
    - 15.59).toFixed(1))], every operation rounded to a double. *)
Definition gradeLevel (words sentences syllables : nat) : Double.double :=
  let grade :=
    Double.sub
      (Double.add
         (Double.div (Double.mul (Double.round 39 100) (Double.of_nat words))
                     (Double.of_nat sentences))
         (Double.div (Double.mul (Double.round 118 10)
                                 (Double.of_nat syllables))
                     (Double.of_nat words)))
      (Double.round 1559 100) in
  Double.max0 (Double.of_toFixed1 grade).

Definition grade_lt : Double.double -> nat -> bool := Double.lt.

Definition grade_to_string : Double.double -> string :=
  Double.tenths_to_string.

(** The wording V8 gives to a method call on a value without the method. *)
Definition TypeError_message (v : value) (m : string) : string :=
  match v with
  | VNull => "Cannot read properties of null (reading '" +:+ m +:+ "')"
  | _ => "text." +:+ m +:+ " is not a function"
  end.

(** A tracker that keeps the composite keys of the runs it was told of. *)
Definition isDuplicate (d : list string) (key : string) (params : object)
  : bool :=
  bool_decide (SkillCore.composite_key key params ∈ d).

Definition trackRun (d : list string) (key : string) (params : object)
  : list string :=
  SkillCore.composite_key key params :: d.

Definition handler : object -> TextAnalyzer.M (list string) string :=
  TextAnalyzer.handler toFixed1 Double.double gradeLevel grade_lt
                       grade_to_string TypeError_message "agent"
                       (list string) isDuplicate trackRun.

Definition handler_body
  : value -> value -> TextAnalyzer.M (list string) string :=
  TextAnalyzer.handler_body toFixed1 Double.double gradeLevel grade_lt
                            grade_to_string TypeError_message "agent"
                            (list string) isDuplicate trackRun.

Definition events
  : object -> TextAnalyzer.state (list string) -> list TextAnalyzer.event :=
  TextAnalyzer.events toFixed1 Double.double gradeLevel grade_lt
                      grade_to_string TypeError_message "agent"
                      (list string) isDuplicate trackRun.

Definition start : TextAnalyzer.state (list string) :=
  TextAnalyzer.mkState (list string) [] [].

(** A call that asks for the keywords of a text, and a state whose tracker
    has seen it. *)
Definition keywords_call : object :=
  [ ("text", VStr "twice upon a time"); ("analysis_type", VStr "keywords") ].

Definition seen : TextAnalyzer.state (list string) :=
  TextAnalyzer.mkState (list string)
    [ SkillCore.composite_key TextAnalyzer.name
        (TextAnalyzer.tracked keywords_call) ] [].

(** A call whose text is a number. *)
Definition number_call : object :=
  [ ("text", VNum 3); ("analysis_type", VStr "statistics") ].

(** A test handler with a call counter: the world is the number of calls
    made so far. *)
Definition counting_handler : SkillCore.handler_fn nat :=
  fun _ calls => (SkillCore.Returned "done", S calls).

(** A registry that holds the text-analyzer's declared schema behind the
    counting handler. *)
Definition text_analyzer : SkillCore.skill nat :=
  SkillCore.mkSkill nat "text-analyzer" "Analyze text."
                    SkillCore.textAnalyzer_parameters counting_handler.

Definition registry : SkillCore.Registry nat := [ text_analyzer ].

Definition fresh_session : SkillCore.session nat :=
  SkillCore.mkSession nat SkillCore.fresh 0 [].

(** Zero-padded decimal of at least [width] digits. *)
Definition pad (width : nat) (n : N) : string :=
  let s := Js.N_to_string n in
  string_of_list_ascii (repeat "0"%char (width - String.length s)) +:+ s.

(** The civil date (year, month, day) of a day number counted from
    1970-01-01, in the proleptic Gregorian calendar. *)
Definition civil (days : N) : N * N * N :=
  let z := (days + 719468)%N in
  let era := (z / 146097)%N in
  let doe := (z mod 146097)%N in
  let yoe := ((doe - doe / 1460 + doe / 36524 - doe / 146096) / 365)%N in
  let doy := (doe - (365 * yoe + yoe / 4 - yoe / 100))%N in
  let mp := ((5 * doy + 2) / 153)%N in
  let d := (doy - (153 * mp + 2) / 5 + 1)%N in
  let m := (if mp <? 10 then mp + 3 else mp - 9)%N in
  let y := (yoe + era * 400 + (if m <=? 2 then 1 else 0))%N in
  (y, m, d).

(** [Date.prototype.toISOString] on a time value from 0 to 8.64e15
    milliseconds, the valid dates from the epoch on: the UTC date and time
    as [YYYY-MM-DDTHH:mm:ss.sssZ], with the year as [+YYYYYY] after the
    year 9999. *)
Definition toISOString (t : N) : string :=
  let '(y, m, d) := civil (t / 86400000) in
  let ms := (t mod 86400000)%N in
  (if (y <=? 9999)%N then pad 4 y else "+" +:+ pad 6 y)
    +:+ "-" +:+ pad 2 m +:+ "-" +:+ pad 2 d
    +:+ "T" +:+ pad 2 (ms / 3600000)
    +:+ ":" +:+ pad 2 (ms / 60000 mod 60)
    +:+ ":" +:+ pad 2 (ms / 1000 mod 60)
    +:+ "." +:+ pad 3 (ms mod 1000) +:+ "Z".

(** A world with nothing on the console, whose clock reads
    2025-11-03T00:00:00.000Z first and a millisecond more at each later
    reading. *)
Definition quiet_world : McpServers.world :=
  McpServers.mkWorld (fun k => 1762128000000 + N.of_nat k)%N 0 [].

End Fixtures.

(* ===================================================================== *)
(** * Measures: counting and matching, for the properties of the analyses *)
(* ===================================================================== *)

Module Measures.

Import Json.
Import TextAnalyzer.

(** The sum of [g] over a list. *)
Fixpoint sum_of {A} (g : A -> nat) (l : list A) : nat :=
  match l with
  | [] => 0
  | x :: l' => g x + sum_of g l'
  end.

(** The length of the run that [Js.runs_from] has in progress. *)
Definition started (cur : option string) : nat :=
  match cur with Some w => String.length w | None => 0 end.

(** A run in progress holds at least one character. *)
Definition proper (cur : option string) : Prop :=
  match cur with Some w => 1 <= String.length w | None => True end.

(** The distinct words of a text that pass the filter of
    [analyzeKeywords], in the order of their first appearance. *)
Definition kept_words (text : string) : list string :=
  remove_dups (List.filter keep_word (lower_words text)).

(** [s.includes(w)]: the string [w] occurs in [s], at any position. *)
Fixpoint occurs (w s : string) : bool :=
  String.prefix w s
  || match s with
     | EmptyString => false
     | String _ s' => occurs w s'
     end.

(** A call that spells its analysis type with a capital. *)
Definition shouted_call : object :=
  [ ("text", VStr "twice upon a time"); ("analysis_type", VStr "Keywords") ].

(** Eleven distinct words that pass the keyword filter, the first of them
    three times and the last of them once. *)
Definition eleven_words : string :=
  "alpha alpha alpha bravo bravo charlie charlie delta delta echoes echoes "
    +:+ "foxtrot foxtrot golf golf hotel hotel india india juliet juliet "
    +:+ "kilo".

End Measures.

(* ===================================================================== *)
(** * Properties of the MCP server stubs                                  *)
(* ===================================================================== *)

Module McpFacts.

Import McpServers.

Section Facts.

Variable toISOString : N -> string.

Abbreviation stamp := (stamp toISOString).

Lemma queryRecords_value objectType filter w :
  fst (queryRecords toISOString objectType filter w)
  = [ mkRecord "rec_001" objectType "Record 1" (stamp w 0);
      mkRecord "rec_002" objectType "Record 2" (stamp w 1) ].
Proof.
  unfold stamp. cbn. rewrite Nat.add_0_r, Nat.add_1_r. reflexivity.
Qed.

Lemma createDocument_value title content w :
  fst (createDocument toISOString title content w)
  = mkDocument ("doc_" +:+ Js.N_to_string (clock w (reads w)))
               title content (stamp w 1) "success".
Proof.
  unfold stamp. cbn. rewrite Nat.add_1_r. reflexivity.
Qed.

Lemma updateDocument_value documentId title content w :
  fst (updateDocument toISOString documentId title content w)
  = mkUpdated documentId (Js.or_else title "Unchanged")
              (Js.or_else content "Unchanged") (stamp w 0) "success".
Proof.
  unfold stamp. cbn. rewrite Nat.add_0_r. reflexivity.
Qed.

(** C7, as the code has it.  The stubs return static mock objects.
    [queryRecords] returns exactly two records, with ids "rec_001" and
    "rec_002", whose objectType is the input objectType; apart from the
    time stamps read from the clock every field is a constant, and the
    result is the same for every filter.  [createDocument] returns a
    document with status "success" that carries the given title and
    content.  [updateDocument] returns, for every title and content,
    given or omitted, an object with status "success" that carries the
    given document id; it carries the given title (content) when that is
    a non-empty string, and the string "Unchanged" when it is the empty
    string or omitted. *)
Theorem stubs_return_static_mocks :
  forall (objectType : string) (filter filter' : option string)
         (title content documentId : string)
         (newTitle newContent : option string) (w : world),
    fst (queryRecords toISOString objectType filter w)
    = [ mkRecord "rec_001" objectType "Record 1" (stamp w 0);
        mkRecord "rec_002" objectType "Record 2" (stamp w 1) ]
    /\ fst (queryRecords toISOString objectType filter w)
       = fst (queryRecords toISOString objectType filter' w)
    /\ (let d := fst (createDocument toISOString title content w) in
        doc_status d = "success" /\ doc_title d = title
        /\ doc_content d = content
        /\ doc_id d = "doc_" +:+ Js.N_to_string (clock w (reads w))
        /\ doc_createdAt d = stamp w 1)
    /\ (let u := fst (updateDocument toISOString documentId
                                     newTitle newContent w) in
        upd_status u = "success" /\ upd_id u = documentId
        /\ upd_modifiedAt u = stamp w 0
        /\ upd_title u = match newTitle with
                         | Some (String c rest) => String c rest
                         | Some EmptyString | None => "Unchanged"
                         end
        /\ upd_content u = match newContent with
                           | Some (String c rest) => String c rest
                           | Some EmptyString | None => "Unchanged"
                           end).
Proof.
  intros. split; [|split; [|split]].
  - apply queryRecords_value.
  - rewrite !queryRecords_value. reflexivity.
  - cbv zeta. rewrite createDocument_value. cbn. tauto.
  - cbv zeta. rewrite updateDocument_value. cbn.
    destruct newTitle as [[|]|], newContent as [[|]|]; cbn; tauto.
Qed.

(** C8. In [updateDocument] an empty string cannot be told from an absent
    argument: with the title (or the content) equal to the empty string or
    omitted, the returned field is "Unchanged", and the whole call, result
    and effects, is the same as with the argument omitted. *)
Theorem updateDocument_empty_is_absent :
  forall (documentId : string) (title content : option string) (w : world),
    upd_title (fst (updateDocument toISOString documentId (Some "") content w))
    = "Unchanged"
    /\ upd_title (fst (updateDocument toISOString documentId None content w))
       = "Unchanged"
    /\ upd_content (fst (updateDocument toISOString documentId title (Some "") w))
       = "Unchanged"
    /\ upd_content (fst (updateDocument toISOString documentId title None w))
       = "Unchanged"
    /\ updateDocument toISOString documentId (Some "") content w
       = updateDocument toISOString documentId None content w
    /\ updateDocument toISOString documentId title (Some "") w
       = updateDocument toISOString documentId title None w.
Proof.
  intros. rewrite !updateDocument_value.
  destruct title as [[|]|], content as [[|]|]; cbn; tauto.
Qed.

End Facts.

(** C7, where the claim as stated fails: [updateDocument] does not echo
    an empty title or content.  Called with the empty string for both, it
    returns "Unchanged" for both. *)
Lemma updateDocument_does_not_echo_empty :
  fst (updateDocument Fixtures.toISOString "doc_12345" (Some "") (Some "")
                      Fixtures.quiet_world)
  = mkUpdated "doc_12345" "Unchanged" "Unchanged"
              "2025-11-03T00:00:00.000Z" "success"
  /\ "Unchanged" <> "".
Proof. split; [vm_compute; reflexivity|discriminate]. Qed.

End McpFacts.

(* ===================================================================== *)
(** * Properties of the text-analyzer skill                               *)
(* ===================================================================== *)

Module TextAnalyzerFacts.

Import Json TextAnalyzer.

(** ** Sentence count *)

Lemma runs_from_no_match p cur s :
  Js.count_chars p s = 0 ->
  Js.runs_from p cur s = match cur with Some w => [w] | None => [] end.
Proof.
  revert cur. induction s as [|c s IH]; intros cur Hc; cbn in *.
  - reflexivity.
  - destruct (p c); [discriminate|].
    destruct cur; rewrite IH by assumption; reflexivity.
Qed.

Lemma or_one_positive n : 1 <= or_one n.
Proof. destruct n; cbn; lia. Qed.

(** C9. In [analyzeStatistics] the sentence count is at least 1 for every
    text: the average words per sentence is the quotient of the word count
    by that count, never a division by zero, and a text without '.', '!'
    and '?' counts as one sentence. *)
Theorem sentence_divisor_nonzero :
  forall text : string,
    1 <= sentences (text_statistics text)
    /\ sentences (text_statistics text) = sentence_count text
    /\ avgWordsPerSentence (text_statistics text)
       = Ratio (word_count text) (sentence_count text)
    /\ (Js.count_chars is_sentence_end text = 0 ->
        sentences (text_statistics text) = 1).
Proof.
  intros text. cbn. split; [apply or_one_positive|].
  split; [reflexivity|]. split.
  - unfold divide. pose proof (or_one_positive
      (List.length (Js.runs is_sentence_end text))) as H.
    unfold sentence_count.
    destruct (or_one _); [lia|reflexivity].
  - intros H. unfold sentence_count, Js.runs.
    rewrite runs_from_no_match by assumption. reflexivity.
Qed.

Lemma sentence_divisor_nonzero_witness :
  Js.count_chars is_sentence_end "no full stop here" = 0
  /\ sentences (text_statistics "no full stop here") = 1.
Proof.
  split; [reflexivity|].
  apply (sentence_divisor_nonzero "no full stop here"). reflexivity.
Defined.

(** ** Keywords *)

Lemma sort_insert_In {A} (cmp : A -> A -> number) x y l :
  In y (sort_insert cmp x l) <-> y = x \/ In y l.
Proof.
  induction l as [|z l IH]; cbn.
  - intuition.
  - destruct (SortCompare cmp x z <=? 0)%Z; cbn; [intuition|].
    rewrite IH. intuition.
Qed.

Lemma sort_In {A} (cmp : A -> A -> number) y l :
  In y (sort cmp l) <-> In y l.
Proof.
  induction l as [|x l IH]; cbn; [reflexivity|].
  rewrite sort_insert_In, IH. intuition.
Qed.

Lemma insert_index_In {A} (x y : N * A) l :
  In y (insert_index x l) <-> y = x \/ In y l.
Proof.
  induction l as [|z l IH]; cbn.
  - intuition.
  - destruct (fst x <=? fst z)%N; cbn; [intuition|].
    rewrite IH. intuition.
Qed.

Lemma index_entries_In o n e : In (n, e) (index_entries o) -> In e o.
Proof.
  induction o as [|e' o IH]; cbn; [tauto|].
  destruct (array_index (fst e')) as [m|]; [|auto].
  rewrite insert_index_In. intros [[= _ ->]|H]; auto.
Qed.

Lemma entries_In o e : In e (entries o) -> In e o.
Proof.
  unfold entries. rewrite in_app_iff, in_map_iff, filter_In.
  intros [[[n e'] [<- H]]|[H _]]; [|assumption].
  eapply index_entries_In, H.
Qed.

Lemma replace_own_keys o k v : map fst (replace_own o k v) = map fst o.
Proof.
  induction o as [|[k' v'] o IH]; cbn; [reflexivity|].
  destruct (String.eqb k' k); cbn; [reflexivity|]. now rewrite IH.
Qed.

Lemma count_word_keys o w k :
  In k (map fst (count_word o w)) -> k = w \/ In k (map fst o).
Proof.
  unfold count_word, assign.
  destruct (own o w).
  - rewrite replace_own_keys. auto.
  - destruct (String.eqb w "__proto__"); [auto|].
    rewrite map_app, in_app_iff. cbn. intuition.
Qed.

Lemma fold_count_word_keys ws o k :
  In k (map fst (fold_left count_word ws o)) ->
  In k ws \/ In k (map fst o).
Proof.
  revert o. induction ws as [|w ws IH]; intros o; cbn; [auto|].
  intros H. apply IH in H as [H|H]; [auto|].
  apply count_word_keys in H as [->|H]; auto.
Qed.

Lemma top_entries_In text e :
  In e (top_entries text) ->
  In e (count_words (lower_words text)).
Proof.
  unfold top_entries. intros H.
  apply list_elem_of_In, (subseteq_take 10), list_elem_of_In in H.
  now apply sort_In, entries_In in H.
Qed.

(** The parts of the keyword contract that hold for every text: at most
    ten keywords, none of them a common word, each longer than three
    characters, each one of the lowercased words of the text. *)
Lemma keywords_at_most_ten text : List.length (keywords text) <= 10.
Proof.
  unfold keywords, top_entries. rewrite length_map, length_take. lia.
Qed.

Lemma keywords_are_kept_words text word :
  In word (keywords text) ->
  has commonWords word = false
  /\ 3 < String.length word
  /\ 0 < occurrences word text.
Proof.
  unfold keywords. rewrite in_map_iff. intros [e [<- H]].
  apply top_entries_In in H.
  assert (Hk : In (fst e) (map fst (count_words (lower_words text))))
    by (apply in_map; assumption).
  apply fold_count_word_keys in Hk as [Hk|[]].
  apply filter_In in Hk as [Hin Hkeep].
  unfold keep_word in Hkeep.
  apply andb_true_iff in Hkeep as [Hc Hl].
  apply negb_true_iff in Hc. apply Nat.ltb_lt in Hl.
  repeat split; try assumption.
  unfold occurrences. now apply count_occ_In.
Qed.

(** *** Lowercased words are not inherited property names *)

Lemma lower_char_not_upper c : Js.is_upper (Js.lower_char c) = false.
Proof. destruct c as [[] [] [] [] [] [] [] []]; reflexivity. Qed.

Lemma toLowerCase_no_upper s : no_upper (Js.toLowerCase s) = true.
Proof.
  unfold no_upper. induction s as [|c s IH]; cbn; [reflexivity|].
  now rewrite lower_char_not_upper, IH.
Qed.

Lemma no_upper_app s t :
  no_upper (s +:+ t) = no_upper s && no_upper t.
Proof.
  unfold no_upper. induction s as [|c s IH]; cbn; [reflexivity|].
  change (String c s +:+ t) with (String c (s +:+ t)). cbn.
  now rewrite IH, andb_assoc.
Qed.

Lemma runs_from_no_upper p cur s w :
  no_upper s = true ->
  match cur with Some c => no_upper c = true | None => True end ->
  In w (Js.runs_from p cur s) -> no_upper w = true.
Proof.
  revert cur. induction s as [|c s IH]; intros cur Hs Hcur; cbn.
  - destruct cur; cbn; [intros [<-|[]]; assumption|tauto].
  - unfold no_upper in Hs. cbn in Hs. apply andb_true_iff in Hs as [Hc Hs].
    destruct (p c).
    + apply IH; [assumption|].
      destruct cur as [w0|].
      * rewrite no_upper_app, Hcur. unfold no_upper. cbn. now rewrite Hc.
      * unfold no_upper. cbn. now rewrite Hc.
    + destruct cur as [w0|]; cbn.
      * intros [<-|H]; [assumption|]. now apply (IH None).
      * now apply (IH None).
Qed.

Lemma lower_words_no_upper text w :
  In w (lower_words text) -> no_upper w = true.
Proof.
  apply (runs_from_no_upper _ None); [apply toLowerCase_no_upper|exact I].
Qed.

Lemma lowercase_not_inherited w :
  no_upper w = true ->
  Object_prototype_get w = None \/ w = "constructor" \/ w = "__proto__".
Proof.
  intros Hw. unfold Object_prototype_get.
  destruct (String.eqb_spec w "constructor") as [->|_]; [auto|].
  destruct (String.eqb_spec w "__proto__") as [->|_]; [auto|].
  destruct (has Object_prototype_methods w) eqn:Hm; [|auto].
  exfalso. unfold has in Hm. apply existsb_exists in Hm as (m & Hin & Heq).
  apply String.eqb_eq in Heq. subst m.
  cbn in Hin. repeat destruct Hin as [<-|Hin]; try discriminate Hw.
  destruct Hin.
Qed.

(** *** Counting *)

Lemma own_In o k c : own o k = Some c -> In (k, c) o.
Proof.
  induction o as [|[k' c'] o IH]; cbn; [discriminate|].
  destruct (String.eqb_spec k' k) as [->|_]; [intros [= ->]|]; auto.
Qed.

Lemma own_None o k : own o k = None -> ~ In k (map fst o).
Proof.
  induction o as [|[k' c'] o IH]; cbn; [tauto|].
  destruct (String.eqb_spec k' k) as [->|Hne]; [discriminate|].
  intros H [Heq|Hin]; [congruence|]. now apply IH.
Qed.

Lemma replace_own_In o k v k' c :
  NoDup (map fst o) ->
  In (k', c) (replace_own o k v) ->
  (k' = k /\ c = v) \/ (k' <> k /\ In (k', c) o).
Proof.
  induction o as [|[k0 c0] o IH]; cbn; [tauto|].
  intros Hnd. apply NoDup_cons in Hnd as [Hk0 Hnd].
  destruct (String.eqb_spec k0 k) as [->|Hne]; cbn.
  - intros [[= <- <-]|Hin]; [auto|]. right. split; [|auto].
    intros ->. apply Hk0, list_elem_of_In, in_map_iff. exists (k, c). auto.
  - intros [[= <- <-]|Hin]; [auto|].
    destruct (IH Hnd Hin) as [?|[? ?]]; auto.
Qed.

Lemma tally_snoc seen w k :
  tally (seen ++ [w]) k
  = if string_dec w k then S (tally seen k) else tally seen k.
Proof.
  unfold tally. rewrite count_occ_app. cbn.
  destruct (string_dec w k); lia.
Qed.

Lemma counted_step seen o w :
  w <> "constructor" ->
  Object_prototype_get w = None \/ w = "constructor" \/ w = "__proto__" ->
  counted seen o -> counted (seen ++ [w]) (count_word o w).
Proof.
  intros Hc Hw [Hnd Hent Hseen]. unfold count_word, assign, incremented.
  destruct (own o w) as [c|] eqn:Hown.
  - pose proof (own_In _ _ _ Hown) as Hin.
    destruct (Hent _ _ Hin) as (Hp & -> & Hs).
    split.
    + now rewrite replace_own_keys.
    + intros k c Hk. apply replace_own_In in Hk as [[-> ->]|[Hne Hk]];
        [| |assumption].
      * rewrite tally_snoc. destruct (string_dec w w); [|congruence].
        repeat split; [assumption|f_equal; lia|].
        apply in_app_iff. auto.
      * destruct (Hent _ _ Hk) as (? & -> & ?).
        rewrite tally_snoc. destruct (string_dec w k); [congruence|].
        repeat split; auto. apply in_app_iff. auto.
    + intros k Hk Hp'. rewrite replace_own_keys.
      apply in_app_iff in Hk as [Hk|[<-|[]]]; [auto|].
      apply in_map_iff. exists (w, CNum (tally seen w)). auto.
  - apply own_None in Hown.
    destruct (String.eqb_spec w "__proto__") as [->|Hp].
    + split; [assumption| |].
      * intros k c Hk. destruct (Hent _ _ Hk) as (? & -> & ?).
        rewrite tally_snoc. destruct (string_dec "__proto__" k); [congruence|].
        repeat split; auto. apply in_app_iff. auto.
      * intros k Hk Hp'. apply in_app_iff in Hk as [Hk|[<-|[]]]; [auto|].
        congruence.
    + destruct Hw as [->|[?|?]]; try congruence.
      assert (Hnew : tally seen w = 0).
      { unfold tally. apply count_occ_not_In. intros Hin.
        apply Hown, Hseen; assumption. }
      split.
      * rewrite map_app. cbn. apply NoDup_app. repeat split; auto.
        -- intros k Hk Hk'. apply list_elem_of_In in Hk, Hk'.
           destruct Hk' as [<-|[]]. contradiction.
        -- apply NoDup_singleton.
      * intros k c Hk. apply in_app_iff in Hk as [Hk|[[= <- <-]|[]]].
        -- destruct (Hent _ _ Hk) as (? & -> & Hs).
           rewrite tally_snoc. destruct (string_dec w k) as [<-|_].
           ++ exfalso. apply Hown, in_map_iff. exists (w, CNum (tally seen w)).
              auto.
           ++ repeat split; auto. apply in_app_iff. auto.
        -- rewrite tally_snoc. destruct (string_dec w w); [|congruence].
           rewrite Hnew. repeat split; auto. apply in_app_iff. cbn. auto.
      * intros k Hk Hp'. rewrite map_app. apply in_app_iff.
        apply in_app_iff in Hk as [Hk|[<-|[]]]; [auto|]. cbn. auto.
Qed.

Lemma counted_fold ws seen o :
  ~ In "constructor" ws ->
  (forall w, In w ws -> no_upper w = true) ->
  counted seen o -> counted (seen ++ ws) (fold_left count_word ws o).
Proof.
  revert seen o. induction ws as [|w ws IH]; intros seen o Hc Hl Ho; cbn.
  - now rewrite app_nil_r.
  - replace (seen ++ w :: ws) with ((seen ++ [w]) ++ ws)
      by now rewrite <- app_assoc.
    apply IH.
    + intros H. apply Hc. now right.
    + intros w' H. apply Hl. now right.
    + apply counted_step; [| |assumption].
      * intros ->. apply Hc. now left.
      * apply lowercase_not_inherited, Hl. now left.
Qed.

Lemma counted_empty : counted [] [].
Proof. split; cbn; [constructor|tauto|tauto]. Qed.

(** *** The strings among the counts *)

Lemma incremented_inherited_text o w :
  Forall (fun e => inherited_text (snd e)) o ->
  inherited_text (incremented o w).
Proof.
  intros Ho. unfold incremented.
  destruct (own o w) as [[n|s]|] eqn:Hown.
  - exact I.
  - apply own_In in Hown. rewrite Forall_forall in Ho.
    specialize (Ho _ (proj2 (list_elem_of_In _ _) Hown)). cbn in Ho.
    destruct Ho as [rest [-> | ->]]; cbn; eexists; [left|right]; reflexivity.
  - destruct (Object_prototype_get w) as [[f|]|]; cbn;
      try exact I; eexists; [left|right]; reflexivity.
Qed.

Lemma replace_own_Forall (P : string * count -> Prop) o k v :
  (forall k', P (k', v)) -> Forall P o -> Forall P (replace_own o k v).
Proof.
  intros Hv. induction 1 as [|[k' v'] o Hx Ho IH]; cbn; [constructor|].
  destruct (String.eqb k' k); constructor; auto.
Qed.

Lemma count_words_inherited_text ws o :
  Forall (fun e => inherited_text (snd e)) o ->
  Forall (fun e => inherited_text (snd e)) (fold_left count_word ws o).
Proof.
  revert o. induction ws as [|w ws IH]; intros o Ho; cbn; [assumption|].
  apply IH. pose proof (incremented_inherited_text o w Ho) as Hi.
  unfold count_word, assign. destruct (own o w).
  - apply replace_own_Forall; auto.
  - destruct (String.eqb w "__proto__"); [assumption|].
    apply Forall_app. split; [assumption|]. constructor; [exact Hi|constructor].
Qed.

(** *** Sorting numeric counts *)

Lemma SortCompare_numeric x y :
  numeric x -> numeric y ->
  SortCompare by_frequency x y = (Z.of_nat (count_of y) - Z.of_nat (count_of x))%Z.
Proof.
  intros [n Hx] [m Hy]. unfold SortCompare, by_frequency, count_of.
  rewrite Hx, Hy. reflexivity.
Qed.

Lemma sort_insert_sorted x l :
  numeric x -> Forall numeric l ->
  StronglySorted not_below l ->
  StronglySorted not_below (sort_insert by_frequency x l).
Proof.
  intros Hx Hl Hs. induction Hs as [|y l Hs IH Hy]; cbn.
  - repeat constructor.
  - apply Forall_cons in Hl as [Hny Hl].
    rewrite SortCompare_numeric by assumption.
    destruct (Z.leb_spec (Z.of_nat (count_of y) - Z.of_nat (count_of x)) 0)
      as [Hle|Hgt].
    + constructor; [constructor; assumption|].
      constructor; [unfold not_below; lia|].
      eapply Forall_impl; [exact Hy|]. unfold not_below. intros z Hz. lia.
    + constructor; [auto|].
      apply Forall_forall. intros z Hz. apply list_elem_of_In in Hz.
      apply sort_insert_In in Hz as [->|Hz]; [unfold not_below; lia|].
      rewrite Forall_forall in Hy. apply Hy. now apply list_elem_of_In.
Qed.

Lemma sort_sorted l :
  Forall numeric l -> StronglySorted not_below (sort by_frequency l).
Proof.
  induction 1 as [|x l Hx Hl IH]; cbn; [constructor|].
  apply sort_insert_sorted; [assumption| |assumption].
  apply Forall_forall. intros z Hz. apply list_elem_of_In, sort_In in Hz.
  rewrite Forall_forall in Hl. apply Hl. now apply list_elem_of_In.
Qed.

Lemma tally_filter (f : string -> bool) l w :
  f w = true -> tally (List.filter f l) w = tally l w.
Proof.
  intros Hw. unfold tally. induction l as [|x l IH]; cbn; [reflexivity|].
  destruct (f x) eqn:Hx; cbn.
  - destruct (string_dec x w); now rewrite IH.
  - destruct (string_dec x w) as [->|_]; [congruence|assumption].
Qed.

(** Without the word "constructor" the contract of [analyzeKeywords]
    holds: every entry carries the occurrence count of its word, and the
    keywords come in non-increasing order of occurrence count. *)
Lemma keywords_sorted_without_constructor text :
  ~ In "constructor" (lower_words text) ->
  (forall e, In e (top_entries text) ->
             snd e = CNum (occurrences (fst e) text))
  /\ StronglySorted (fun w1 w2 => occurrences w2 text <= occurrences w1 text)
                    (keywords text).
Proof.
  intros Hc.
  assert (Hcounted : counted (List.filter keep_word (lower_words text))
                             (count_words (lower_words text))).
  { apply (counted_fold (List.filter keep_word (lower_words text)) [] []);
      [| |apply counted_empty].
    - rewrite filter_In. tauto.
    - intros w Hw. apply filter_In in Hw as [Hw _].
      eapply lower_words_no_upper, Hw. }
  destruct Hcounted as [_ Hent _].
  assert (Hentry : forall e, In e (count_words (lower_words text)) ->
                             snd e = CNum (occurrences (fst e) text)).
  { intros [k c] Hk. destruct (Hent _ _ Hk) as (_ & -> & Hin). cbn.
    apply filter_In in Hin as [_ Hkeep].
    unfold occurrences. f_equal. now apply tally_filter. }
  assert (Htop : forall e, In e (top_entries text) ->
                           snd e = CNum (occurrences (fst e) text)).
  { intros e He. now apply Hentry, top_entries_In. }
  split; [exact Htop|].
  assert (Hs : StronglySorted not_below (top_entries text)).
  { unfold top_entries.
    pose proof (sort_sorted (entries (count_words (lower_words text)))) as Hs.
    rewrite <- (take_drop 10 (sort by_frequency _)) in Hs.
    eapply StronglySorted_app_1_l, Hs.
    apply Forall_forall. intros e He. apply list_elem_of_In, entries_In in He.
    eexists. now apply Hentry. }
  unfold keywords. revert Hs Htop.
  induction (top_entries text) as [|e es IH]; cbn; intros Hs Htop.
  - constructor.
  - apply StronglySorted_inv in Hs as [Hs He].
    constructor; [apply IH; auto|].
    apply Forall_map, Forall_forall. intros e' He'. apply list_elem_of_In in He'.
    rewrite Forall_forall in He. specialize (He e' ltac:(now apply list_elem_of_In)).
    unfold not_below, count_of in He.
    rewrite (Htop e), (Htop e') in He by auto. exact He.
Qed.

(** C10, at the input that breaks it.  The text "constructor pattern
    pattern" holds "constructor" once and "pattern" twice.  The first read
    of [wordFreq["constructor"]] finds the function that the empty object
    inherits from [Object.prototype], so the stored count is a string, the
    comparator yields [NaN] and the entries stay in creation order: the
    keyword that occurs once comes before the keyword that occurs twice. *)
Theorem keywords_out_of_order_at_constructor :
  analyzeKeywords "constructor pattern pattern"
  = "**Top Keywords:** constructor (function Object() { [native code] }1), pattern (2)"
  /\ keywords "constructor pattern pattern" = ["constructor"; "pattern"]
  /\ occurrences "constructor" "constructor pattern pattern" = 1
  /\ occurrences "pattern" "constructor pattern pattern" = 2.
Proof. vm_compute. repeat split. Qed.

(** ** The handler *)

Section Handler.

Variable toFixed1 : quotient -> string.
Variable double : Type.
Variable gradeLevel : nat -> nat -> nat -> double.
Variable double_lt : double -> nat -> bool.
Variable double_to_string : double -> string.
Variable TypeError_message : value -> string -> string.
Variable caller : string.
Variable Deduplicator : Type.
Variable isDuplicate : Deduplicator -> string -> object -> bool.
Variable trackRun : Deduplicator -> string -> object -> Deduplicator.

Abbreviation state := (state Deduplicator).
Abbreviation mkState := (mkState Deduplicator).
Abbreviation tracker := (tracker Deduplicator).
Abbreviation trace := (trace Deduplicator).
Abbreviation analyze :=
  (analyze toFixed1 double gradeLevel double_lt double_to_string).
Abbreviation handler_body :=
  (handler_body toFixed1 double gradeLevel double_lt double_to_string
                TypeError_message caller Deduplicator isDuplicate trackRun).
Abbreviation handler :=
  (handler toFixed1 double gradeLevel double_lt double_to_string
           TypeError_message caller Deduplicator isDuplicate trackRun).
Abbreviation duplicate := (duplicate Deduplicator isDuplicate).
Abbreviation events :=
  (events toFixed1 double gradeLevel double_lt double_to_string
          TypeError_message caller Deduplicator isDuplicate trackRun).
Abbreviation introspect_message := (introspect_message caller).
Abbreviation path :=
  (path toFixed1 double gradeLevel double_lt double_to_string
        TypeError_message caller Deduplicator isDuplicate trackRun).

Lemma app_assoc_cons {A} (l : list A) x r : (l ++ [x]) ++ r = l ++ x :: r.
Proof. rewrite <- app_assoc. reflexivity. Qed.

Lemma handler_path args s :
  path args s (fst (handler args s)) (snd (handler args s)).
Proof.
  destruct (duplicate s args) eqn:Hd.
  - replace (handler args s) with
      (Normal duplicate_notice,
       mkState (tracker s) (trace s ++ [IsDuplicate; Log skip_message])).
    + apply path_duplicate; assumption.
    + unfold duplicate, tracked in Hd.
      unfold TextAnalyzer.handler, try_catch, TextAnalyzer.handler_body,
        bind, tracker_isDuplicate. cbn. rewrite Hd. cbn.
      rewrite app_assoc_cons. reflexivity.
  - destruct (route (analysis_type_of args)) as [f|] eqn:Hr.
    + destruct (text_of args) as [| | |text| |] eqn:Ht.
      all: unfold duplicate, tracked in Hd; rewrite Ht in Hd.
      4: { replace (handler args s) with
             (Normal (analyze f text),
              mkState (trackRun (tracker s) name (tracked args))
                      (trace s ++ [IsDuplicate; Ran f;
                                   Introspect (introspect_message f);
                                   TrackRun])).
           - apply path_success; unfold duplicate, tracked;
               rewrite ?Ht; auto.
           - unfold TextAnalyzer.handler, try_catch,
               TextAnalyzer.handler_body, bind, tracker_isDuplicate, tracked.
             cbn. rewrite Ht, Hd, Hr. cbn.
             rewrite !app_assoc_cons. reflexivity. }
      all: match goal with
           | |- path _ _ (fst ?h) _ =>
               replace h with
                 (Normal (error_text (TypeError_message (text_of args)
                                                        (first_method f))),
                  mkState (tracker s)
                          (trace s ++ [IsDuplicate; Ran f;
                                       Log (error_log
                                              (TypeError_message
                                                 (text_of args)
                                                 (first_method f)))]))
           end.
      all: try (apply path_error; unfold duplicate, tracked;
                rewrite ?Ht; auto).
      all: unfold TextAnalyzer.handler, try_catch, TextAnalyzer.handler_body,
             bind, tracker_isDuplicate; cbn; rewrite Ht, Hd, Hr; cbn;
           rewrite !app_assoc_cons; reflexivity.
    + replace (handler args s) with
        (Normal "Invalid analysis type specified.",
         mkState (tracker s) (trace s ++ [IsDuplicate])).
      * apply path_invalid; assumption.
      * unfold duplicate, tracked in Hd.
        unfold TextAnalyzer.handler, try_catch, TextAnalyzer.handler_body,
          bind, tracker_isDuplicate. cbn. rewrite Hd, Hr. reflexivity.
Qed.


Lemma events_spec args s evs :
  trace (snd (handler args s)) = trace s ++ evs -> events args s = evs.
Proof. intros H. unfold events. rewrite H. apply drop_app_length. Qed.

(** The completion of the [try] block alone. *)
Lemma body_throws args s e :
  fst (handler_body (text_of args) (analysis_type_of args) s) = Throw e ->
  exists f,
    duplicate s args = false
    /\ route (analysis_type_of args) = Some f
    /\ is_string (text_of args) = false
    /\ e = mkError (TypeError_message (text_of args) (first_method f)).
Proof.
  unfold duplicate, tracked, TextAnalyzer.handler_body, bind,
    tracker_isDuplicate. cbn.
  destruct (isDuplicate _ _ _); cbn; [discriminate|].
  destruct (route (analysis_type_of args)) as [f|]; cbn; [|discriminate].
  destruct (text_of args); cbn; try discriminate.
  all: intros [= <-]; exists f; auto.
Qed.

Lemma body_returns args s f text :
  duplicate s args = false ->
  route (analysis_type_of args) = Some f ->
  text_of args = VStr text ->
  fst (handler_body (text_of args) (analysis_type_of args) s)
  = Normal (analyze f text).
Proof.
  unfold duplicate, tracked, TextAnalyzer.handler_body, bind,
    tracker_isDuplicate. cbn.
  intros Hd Hr Ht. rewrite Ht in *. rewrite Hd, Hr. reflexivity.
Qed.

Lemma notice_on_duplicate args s :
  duplicate s args = true ->
  events args s = [IsDuplicate; Log skip_message]
  /\ fst (handler args s) = Normal duplicate_notice.
Proof.
  intros Hdup. pose proof (handler_path args s) as P.
  inversion P as [Hd Hf Hs|Hd Hr Hf Hs|? ? Hd Hr Ht Hf Hs|? Hd Hr Ht Hf Hs];
    try congruence.
  split; [|reflexivity].
  apply events_spec. rewrite <- Hs. reflexivity.
Qed.

(** C3. The duplicate check comes first in every call and is never
    repeated after it: the events of a call begin with the check and hold
    no second one.  When the tracker reports the composite of the skill
    name and [{text, analysis_type}] as a duplicate, the call enters none
    of [analyzeKeywords], [analyzeSentiment], [analyzeStatistics] and
    [analyzeReadability]: it logs, leaves the tracker as it was and returns
    the notice. *)
Theorem duplicate_check_precedes_analysis :
  forall (args : object) (s : state),
    (exists rest, events args s = IsDuplicate :: rest
                  /\ ~ In IsDuplicate rest)
    /\ (duplicate s args = true ->
        events args s = [IsDuplicate; Log skip_message]
        /\ analyses (events args s) = 0
        /\ fst (handler args s) = Normal duplicate_notice
        /\ tracker (snd (handler args s)) = tracker s).
Proof.
  intros args s. split.
  - pose proof (handler_path args s) as P.
    inversion P as [Hd Hf Hs|Hd Hr Hf Hs|? ? Hd Hr Ht Hf Hs|? Hd Hr Ht Hf Hs].
    all: symmetry in Hs; apply (f_equal trace) in Hs; cbn in Hs;
      apply events_spec in Hs; rewrite Hs; eexists; split;
      [reflexivity|]; cbn; intuition discriminate.
  - intros Hdup. pose proof (handler_path args s) as P.
    inversion P as [Hd Hf Hs|Hd Hr Hf Hs|? ? Hd Hr Ht Hf Hs|? Hd Hr Ht Hf Hs];
      try congruence.
    assert (He : events args s = [IsDuplicate; Log skip_message]).
    { apply events_spec. rewrite <- Hs. reflexivity. }
    rewrite He. repeat split; auto.
Qed.

(** C6. The handler completes normally with a string on every input
    object: an error thrown inside the [try] block, where the analysis
    functions run, is caught, and the handler then returns "An error
    occurred while analyzing the text: " followed by the error's message. *)
Theorem handler_never_throws :
  forall (args : object) (s : state),
    (exists text, fst (handler args s) = Normal text)
    /\ (forall e,
           fst (handler_body (text_of args) (analysis_type_of args) s)
           = Throw e ->
           fst (handler args s)
           = Normal ("An error occurred while analyzing the text: "
                     +:+ message e)).
Proof.
  intros args s. split.
  - pose proof (handler_path args s) as P.
    inversion P; eexists; reflexivity.
  - intros e He. apply body_throws in He as (f & Hd & Hr & Ht & ->).
    pose proof (handler_path args s) as P.
    inversion P as [Hd' Hf Hs|Hd' Hr' Hf Hs|? ? Hd' Hr' Ht' Hf Hs
                    |f' Hd' Hr' Ht' Hf Hs]; try congruence.
    + rewrite Ht' in Ht. discriminate.
    + assert (f' = f) as -> by congruence. reflexivity.
Qed.

(** C2. A failed call is not recorded.  If the [try] block throws, the
    call ends without reaching [trackRun] and leaves the tracker as it
    was, so a second call with the same arguments is not a duplicate and
    enters the analysis function again.  In every call, [trackRun] is
    reached only if the [try] block completed with the analysis result. *)
Theorem failed_analysis_not_tracked :
  forall (args : object) (s : state),
    (forall e,
        fst (handler_body (text_of args) (analysis_type_of args) s)
        = Throw e ->
        let s1 := snd (handler args s) in
        tracker s1 = tracker s
        /\ ~ In TrackRun (events args s)
        /\ analyses (events args s) = 1
        /\ duplicate s1 args = false
        /\ analyses (events args s1) = 1)
    /\ (In TrackRun (events args s) ->
        exists f text,
          route (analysis_type_of args) = Some f
          /\ text_of args = VStr text
          /\ fst (handler_body (text_of args) (analysis_type_of args) s)
             = Normal (analyze f text)).
Proof.
  intros args s. split.
  - intros e He s1. apply body_throws in He as (f & Hd & Hr & Ht & ->).
    assert (Hfail : forall s0 : state,
               duplicate s0 args = false ->
               tracker (snd (handler args s0)) = tracker s0
               /\ events args s0
                  = [IsDuplicate; Ran f;
                     Log (error_log (TypeError_message (text_of args)
                                                       (first_method f)))]).
    { intros s0 Hd0. pose proof (handler_path args s0) as P.
      inversion P as [Hd' Hf Hs|Hd' Hr' Hf Hs|? ? Hd' Hr' Ht' Hf Hs
                      |f' Hd' Hr' Ht' Hf Hs]; try congruence.
      - rewrite Ht' in Ht. discriminate.
      - assert (f' = f) as -> by congruence.
        split; [reflexivity|].
        apply events_spec. rewrite <- Hs. reflexivity. }
    destruct (Hfail s Hd) as [Ht1 He1].
    assert (Hd1 : duplicate s1 args = false).
    { unfold TextAnalyzer.duplicate in *. subst s1. rewrite Ht1. exact Hd. }
    destruct (Hfail s1 Hd1) as [_ He2].
    rewrite He1, He2. cbn. intuition discriminate.
  - intros Hin. pose proof (handler_path args s) as P.
    inversion P as [Hd Hf Hs|Hd Hr Hf Hs|f text Hd Hr Ht Hf Hs
                    |f Hd Hr Ht Hf Hs].
    all: symmetry in Hs; apply (f_equal trace) in Hs; cbn in Hs;
      apply events_spec in Hs; rewrite Hs in Hin; cbn in Hin.
    all: try (exfalso; intuition discriminate).
    exists f, text. split; [assumption|]. split; [assumption|].
    apply body_returns; assumption.
Qed.

Lemma analyze_begins_with_star f text :
  exists rest, analyze f text = String "*" rest.
Proof. destruct f; eexists; reflexivity. Qed.

(** What two calls in a row with the same arguments do, when the first one
    is new to the tracker, asks for one of the four analyses and carries a
    string: the analysis runs once, in the first call; the second call
    returns the notice, which no analysis result equals. *)
Lemma repeated_call args s f text :
  (forall d k a, isDuplicate (trackRun d k a) k a = true) ->
  duplicate s args = false ->
  route (analysis_type_of args) = Some f ->
  text_of args = VStr text ->
  let s1 := snd (handler args s) in
  fst (handler args s) = Normal (analyze f text)
  /\ fst (handler args s1) = Normal duplicate_notice
  /\ analyses (events args s ++ events args s1) = 1
  /\ analyze f text <> duplicate_notice.
Proof.
  intros law Hd Hr Ht s1.
  pose proof (handler_path args s) as P.
  inversion P as [Hd' Hf Hs|Hd' Hr' Hf Hs|f' text' Hd' Hr' Ht' Hf Hs
                  |f' Hd' Hr' Ht' Hf Hs]; try congruence.
  2: { rewrite Ht in Ht'. discriminate. }
  assert (f' = f) as -> by congruence.
  assert (text' = text) as -> by congruence.
  assert (He1 : events args s
                = [IsDuplicate; Ran f; Introspect (introspect_message f);
                   TrackRun]).
  { apply events_spec. rewrite <- Hs. reflexivity. }
  assert (Hd1 : duplicate s1 args = true).
  { unfold TextAnalyzer.duplicate. subst s1. rewrite <- Hs. cbn. apply law. }
  destruct (notice_on_duplicate args s1 Hd1) as (He2 & Hn).
  split; [reflexivity|]. split; [exact Hn|]. split.
  - rewrite He1, He2. reflexivity.
  - destruct (analyze_begins_with_star f text) as [rest ->]. discriminate.
Qed.

End Handler.

Lemma duplicate_check_precedes_analysis_witness :
  TextAnalyzer.duplicate (list string) Fixtures.isDuplicate Fixtures.seen
                         Fixtures.keywords_call = true
  /\ analyses (Fixtures.events Fixtures.keywords_call Fixtures.seen) = 0.
Proof.
  split; [vm_compute; reflexivity|].
  apply (duplicate_check_precedes_analysis
           Fixtures.toFixed1 Double.double Fixtures.gradeLevel Fixtures.grade_lt
           Fixtures.grade_to_string Fixtures.TypeError_message "agent"
           (list string) Fixtures.isDuplicate Fixtures.trackRun
           Fixtures.keywords_call Fixtures.seen).
  vm_compute. reflexivity.
Defined.

Lemma handler_never_throws_witness :
  fst (Fixtures.handler_body (text_of Fixtures.number_call)
                             (analysis_type_of Fixtures.number_call)
                             Fixtures.start)
  = Throw (mkError "text.match is not a function")
  /\ fst (Fixtures.handler Fixtures.number_call Fixtures.start)
     = Normal ("An error occurred while analyzing the text: "
               +:+ "text.match is not a function").
Proof.
  split; [vm_compute; reflexivity|].
  apply (proj2 (handler_never_throws
                  Fixtures.toFixed1 Double.double Fixtures.gradeLevel
                  Fixtures.grade_lt Fixtures.grade_to_string
                  Fixtures.TypeError_message "agent" (list string)
                  Fixtures.isDuplicate Fixtures.trackRun
                  Fixtures.number_call Fixtures.start)
               (mkError "text.match is not a function")).
  vm_compute. reflexivity.
Defined.

Lemma failed_analysis_not_tracked_witness :
  fst (Fixtures.handler_body (text_of Fixtures.number_call)
                             (analysis_type_of Fixtures.number_call)
                             Fixtures.start)
  = Throw (mkError "text.match is not a function")
  /\ tracker (list string)
             (snd (Fixtures.handler Fixtures.number_call Fixtures.start))
     = tracker (list string) Fixtures.start.
Proof.
  split; [vm_compute; reflexivity|].
  apply (proj1 (failed_analysis_not_tracked
                  Fixtures.toFixed1 Double.double Fixtures.gradeLevel
                  Fixtures.grade_lt Fixtures.grade_to_string
                  Fixtures.TypeError_message "agent" (list string)
                  Fixtures.isDuplicate Fixtures.trackRun
                  Fixtures.number_call Fixtures.start)
               (mkError "text.match is not a function")).
  vm_compute. reflexivity.
Defined.

End TextAnalyzerFacts.

(* ===================================================================== *)
(** * Properties of the skill-dispatch core                               *)
(* ===================================================================== *)

Module SkillCoreFacts.

Import Json SkillCore.

(** ** Validation *)

Lemma first_failure_find {A} (check : A -> option violation)
      (failing : A -> bool) l :
  (forall x, failing x = true <-> check x <> None) ->
  match find failing l with
  | Some x => first_failure check l = check x /\ check x <> None
  | None => first_failure check l = None
  end.
Proof.
  intros H. induction l as [|y l IH]; cbn; [reflexivity|].
  destruct (failing y) eqn:Hy.
  - apply H in Hy. destruct (check y); [split; [reflexivity|discriminate]|].
    contradiction.
  - destruct (check y) eqn:Hc; [|exact IH].
    assert (failing y = true) by (apply H; congruence). congruence.
Qed.

Lemma required_present_find sc args :
  required_present sc args
  = match find (fun p => p_required p && negb (has_key (p_name p) args))
               (parameters sc) with
    | Some _ => false
    | None => true
    end.
Proof.
  unfold required_present.
  induction (parameters sc) as [|p ps IH]; cbn; [reflexivity|].
  destruct (p_required p), (has_key (p_name p) args); cbn; auto.
Qed.

(** The outcome of validation on an argument map with an undeclared key,
    under a schema that does not allow additional properties: the first
    required parameter that is missing, in the order of the schema, and
    when none is missing the first undeclared key, in the order of the
    argument map. *)
Lemma validate_unknown_key sc args k :
  additionalProperties sc = false ->
  In k (keys args) ->
  declares sc k = false ->
  exists e,
    validate sc args = inl e
    /\ (required_present sc args = true ->
        exists kv,
          find (fun kv => negb (declares sc (fst kv))) args = Some kv
          /\ e = UnknownParameter (fst kv))
    /\ (required_present sc args = false ->
        exists p,
          find (fun p => p_required p && negb (has_key (p_name p) args))
               (parameters sc) = Some p
          /\ e = MissingParameter (p_name p)).
Proof.
  intros Hap Hin Hk.
  pose proof (first_failure_find (check_required args)
                (fun p => p_required p && negb (has_key (p_name p) args))
                (parameters sc)) as Hreq.
  pose proof (first_failure_find (check_known sc)
                (fun kv => negb (declares sc (fst kv))) args) as Hknown.
  rewrite required_present_find. unfold validate.
  destruct (find _ (parameters sc)) as [p|] eqn:Hp.
  - destruct Hreq as [Hreq _].
    { intros x. unfold check_required.
      destruct (p_required x && negb (has_key (p_name x) args));
        split; congruence. }
    rewrite Hreq. apply find_some in Hp as [_ Hp].
    unfold check_required. rewrite Hp.
    exists (MissingParameter (p_name p)). split; [reflexivity|].
    split; [discriminate|]. intros _. exists p. auto.
  - rewrite Hreq.
    2: { intros x. unfold check_required.
         destruct (p_required x && negb (has_key (p_name x) args));
           split; congruence. }
    destruct (find _ args) as [kv|] eqn:Hkv.
    + destruct Hknown as [Hknown _].
      { intros x. unfold check_known. rewrite Hap. cbn.
        destruct (declares sc (fst x)); cbn; split; congruence. }
      rewrite Hknown. apply find_some in Hkv as [_ Hkv'].
      unfold check_known. rewrite Hap. cbn.
      apply negb_true_iff in Hkv'. rewrite Hkv'.
      exists (UnknownParameter (fst kv)). split; [reflexivity|].
      split; [|discriminate]. intros _. exists kv. auto.
    + exfalso. unfold keys in Hin.
      apply in_map_iff in Hin as (kv & <- & Hin).
      apply (find_none _ _ Hkv) in Hin. cbn in Hin.
      rewrite Hk in Hin. discriminate.
Qed.

(** ** Canonical serialization *)

Lemma app_cons c s t : String c s +:+ t = String c (s +:+ t).
Proof. reflexivity. Qed.

Lemma String_inv c c' s s' : String c s = String c' s' -> c = c' /\ s = s'.
Proof. intros [= -> ->]. auto. Qed.

Lemma app_empty t : "" +:+ t = t.
Proof. reflexivity. Qed.

Lemma app_assoc_s s t u : (s +:+ t) +:+ u = s +:+ (t +:+ u).
Proof. induction s as [|c s IH]; [reflexivity|]. rewrite !app_cons. now rewrite IH. Qed.

Lemma escape_inj s s' r r' :
  escape s +:+ String dquote r = escape s' +:+ String dquote r' ->
  s = s' /\ r = r'.
Proof.
  revert s'. induction s as [|c s IH]; intros [|c' s']; cbn [escape].
  - rewrite !app_empty. intros [= ->]. auto.
  - destruct (Ascii.eqb c' dquote || Ascii.eqb c' backslash) eqn:Hc';
      rewrite app_empty, !app_cons.
    + discriminate.
    + intros [= <- _]. discriminate.
  - destruct (Ascii.eqb c dquote || Ascii.eqb c backslash) eqn:Hc;
      rewrite app_empty, !app_cons.
    + discriminate.
    + intros [= -> _]. discriminate.
  - destruct (Ascii.eqb c dquote || Ascii.eqb c backslash) eqn:Hc,
             (Ascii.eqb c' dquote || Ascii.eqb c' backslash) eqn:Hc';
      rewrite !app_cons.
    + intros [= -> H]. apply IH in H as [-> ->]. auto.
    + intros [= <- _]. discriminate.
    + intros [= -> _]. discriminate.
    + intros [= -> H]. apply IH in H as [-> ->]. auto.
Qed.

Lemma quote_inj s s' r r' :
  quote s +:+ r = quote s' +:+ r' -> s = s' /\ r = r'.
Proof.
  unfold quote. rewrite !app_cons, !app_assoc_s, !app_cons, !app_empty.
  intros [= H]. now apply escape_inj.
Qed.

(** Decimal digits. *)
Lemma string_of_uint_inj d d' r r' :
  delimited r -> delimited r' ->
  NilEmpty.string_of_uint d +:+ r = NilEmpty.string_of_uint d' +:+ r' ->
  d = d' /\ r = r'.
Proof.
  intros Hr Hr'. revert d'.
  induction d as [|d IH|d IH|d IH|d IH|d IH|d IH|d IH|d IH|d IH|d IH];
    intros d'; destruct d'; cbn [NilEmpty.string_of_uint];
    rewrite ?app_cons, ?app_empty; intros H.
  all: try (injection H as H; apply IH in H as [-> ->]; auto; fail).
  all: try discriminate H.
  all: try (split; [reflexivity|assumption]).
  all: try (subst r; cbn in Hr; discriminate Hr).
  all: try (subst r'; cbn in Hr'; discriminate Hr').
Qed.

Lemma string_of_uint_head d c s :
  NilEmpty.string_of_uint d = String c s -> Js.is_digit c = true.
Proof. destruct d; cbn; intros [= <- _]; reflexivity. Qed.

Lemma Z_to_string_head n :
  exists c s, Z_to_string n = String c s
              /\ (Js.is_digit c = true \/ c = "-"%char).
Proof.
  unfold Z_to_string. destruct n as [|p|p]; cbn.
  - eauto.
  - pose proof (DecimalPos.Unsigned.to_uint_nonnil p) as Hp.
    destruct (NilEmpty.string_of_uint (Pos.to_uint p)) as [|c s] eqn:E.
    + destruct (Pos.to_uint p); try discriminate E. congruence.
    + exists c, s. split; [reflexivity|]. left.
      eapply string_of_uint_head, E.
  - eauto.
Qed.

Lemma Z_to_string_inj n n' r r' :
  delimited r -> delimited r' ->
  Z_to_string n +:+ r = Z_to_string n' +:+ r' ->
  n = n' /\ r = r'.
Proof.
  intros Hr Hr' H.
  assert (Hi : Z.to_int n = Z.to_int n' /\ r = r').
  { unfold Z_to_string in H.
    destruct (Z.to_int n) as [d|d] eqn:E, (Z.to_int n') as [d'|d'] eqn:E';
      cbn [NilEmpty.string_of_int] in H; rewrite ?app_cons in H.
    - apply string_of_uint_inj in H as [-> ->]; auto.
    - destruct (NilEmpty.string_of_uint d) as [|c s] eqn:Ed.
      + rewrite app_empty in H. subst r. cbn in Hr. discriminate.
      + rewrite app_cons in H. injection H as -> _.
        apply string_of_uint_head in Ed. discriminate.
    - destruct (NilEmpty.string_of_uint d') as [|c s] eqn:Ed.
      + rewrite app_empty in H. subst r'. cbn in Hr'. discriminate.
      + rewrite app_cons in H. injection H as <- _.
        apply string_of_uint_head in Ed. discriminate.
    - injection H as H. apply string_of_uint_inj in H as [-> ->]; auto. }
  destruct Hi as [Hi ->]. split; [|reflexivity].
  rewrite <- (DecimalZ.of_to n), <- (DecimalZ.of_to n'). now rewrite Hi.
Qed.

Lemma value_ind (P : value -> Prop) :
  P VNull ->
  (forall b, P (VBool b)) ->
  (forall n, P (VNum n)) ->
  (forall s, P (VStr s)) ->
  (forall l, Forall P l -> P (VArr l)) ->
  (forall m, Forall (fun kv => P (snd kv)) m -> P (VObj m)) ->
  forall v, P v.
Proof.
  intros Hnull Hbool Hnum Hstr Harr Hobj.
  fix IH 1. intros [| b | n | s | l | m].
  - exact Hnull.
  - apply Hbool.
  - apply Hnum.
  - apply Hstr.
  - apply Harr. induction l as [|x l IHl]; constructor; [apply IH|exact IHl].
  - apply Hobj. induction m as [|[k x] m IHm]; constructor;
      [apply IH|exact IHm].
Qed.

Lemma closes_not_opens c : closes c = true -> opens c = false.
Proof.
  unfold closes. intros H.
  apply orb_true_iff in H as [H|H]; [apply orb_true_iff in H as [H|H]|].
  all: apply Ascii.eqb_eq in H; subst c; reflexivity.
Qed.

Lemma join_single sep x tail : Js.join sep [x] +:+ tail = x +:+ tail.
Proof. reflexivity. Qed.

Lemma join_cons sep x y rest tail :
  Js.join sep (x :: y :: rest) +:+ tail
  = x +:+ sep +:+ Js.join sep (y :: rest) +:+ tail.
Proof.
  change (Js.join sep (x :: y :: rest))
    with (x +:+ sep +:+ Js.join sep (y :: rest)).
  now rewrite !app_assoc_s.
Qed.

Section Items.

Context {A : Type} (pr : A -> string) (close : ascii).

Hypothesis close_closes : closes close = true.
Hypothesis close_not_comma : close <> ","%char.
Hypothesis pr_head :
  forall y, exists c s, pr y = String c s /\ opens c = true.

Abbreviation item_inj := (item_inj pr).

Lemma close_not_head y s r : pr y +:+ s <> String close r.
Proof.
  destruct (pr_head y) as (c & t & -> & Hc). rewrite app_cons.
  intros [= -> _]. rewrite (closes_not_opens _ close_closes) in Hc.
  discriminate.
Qed.

Lemma items_inj l :
  Forall item_inj l ->
  forall l' r r',
    Js.join "," (map pr l) +:+ String close r
    = Js.join "," (map pr l') +:+ String close r' ->
    l = l' /\ r = r'.
Proof.
  induction 1 as [|x l Hx Hl IH]; intros [|y l'] r r'.
  - cbn. intros [= ->]. auto.
  - intros H. symmetry in H. destruct l'; cbn [map] in H;
      rewrite ?join_single, ?join_cons in H; now apply close_not_head in H.
  - intros H. destruct l; cbn [map] in H;
      rewrite ?join_single, ?join_cons in H; now apply close_not_head in H.
  - destruct l as [|x1 l], l' as [|y1 l']; cbn [map];
      rewrite ?join_single, ?join_cons; intros H.
    + apply Hx in H as [-> [= ->]]; auto.
    + apply Hx in H as [_ H]; [|assumption|reflexivity].
      rewrite app_cons in H. injection H as H _. contradiction.
    + apply Hx in H as [_ H]; [|reflexivity|assumption].
      rewrite app_cons in H. injection H as H _. congruence.
    + apply Hx in H as [-> H]; [|reflexivity|reflexivity].
      rewrite !app_cons, !app_empty in H. apply String_inv in H as [_ H].
      change (pr x1 :: map pr l) with (map pr (x1 :: l)) in H.
      change (pr y1 :: map pr l') with (map pr (y1 :: l')) in H.
      apply IH in H as [-> ->]. auto.
Qed.

End Items.

Lemma is_digit_class c : Js.is_digit c = true -> head_class c = 3.
Proof.
  intros H. unfold head_class. rewrite H.
  destruct (Ascii.eqb_spec c "n") as [->|_]; [discriminate H|].
  destruct (Ascii.eqb_spec c "t") as [->|_]; [discriminate H|].
  destruct (Ascii.eqb_spec c "f") as [->|_]; [discriminate H|].
  reflexivity.
Qed.

Lemma print_class v :
  exists c s, print v = String c s /\ head_class c = class_of v.
Proof.
  destruct v as [|[|]|n|s|l|m]; cbn [print];
    try (eexists _, _; split; reflexivity).
  destruct (Z_to_string_head n) as (c & s & -> & [Hc| ->]).
  - exists c, s. split; [reflexivity|]. now apply is_digit_class.
  - eauto.
Qed.

Lemma print_head v :
  exists c s, print v = String c s /\ opens c = true.
Proof.
  destruct (print_class v) as (c & s & E & Hc). exists c, s.
  split; [assumption|].
  assert (Hlt : head_class c < 7) by (rewrite Hc; destruct v as [|[|]| | | |]; cbn; lia).
  unfold head_class in Hlt. unfold opens. cbn [existsb].
  destruct (Ascii.eqb c "n"); [now rewrite !orb_true_r|].
  destruct (Ascii.eqb c "t"); [now rewrite !orb_true_r|].
  destruct (Ascii.eqb c "f"); [now rewrite !orb_true_r|].
  destruct (Js.is_digit c); [reflexivity|].
  destruct (Ascii.eqb c "-"); [reflexivity|]. cbn [orb] in Hlt.
  destruct (Ascii.eqb c dquote); [now rewrite !orb_true_r|].
  destruct (Ascii.eqb c "["); [now rewrite !orb_true_r|].
  destruct (Ascii.eqb c "{"); [now rewrite !orb_true_r|]. lia.
Qed.

Lemma same_class v v' k k' :
  print v +:+ k = print v' +:+ k' -> class_of v = class_of v'.
Proof.
  destruct (print_class v) as (c & s & -> & <-).
  destruct (print_class v') as (c' & s' & -> & <-).
  rewrite !app_cons. intros H. apply String_inv in H as [-> _]. reflexivity.
Qed.

Lemma print_inj_prefix v :
  item_inj print v.
Proof.
  induction v as [|b|n|s|l IHl|m IHm] using value_ind;
    intros v' k k' Hk Hk' H.
  all: pose proof (same_class _ _ _ _ H) as Hc.
  all: destruct v' as [|b'|n'|s'|l'|m'];
    try (destruct b as [|]); try (destruct b' as [|]);
    try discriminate Hc; clear Hc; cbn [print] in H.
  - rewrite !app_cons, !app_empty in H. injection H as ->. auto.
  - rewrite !app_cons, !app_empty in H. injection H as ->. auto.
  - rewrite !app_cons, !app_empty in H. injection H as ->. auto.
  - apply Z_to_string_inj in H as [-> ->]; auto.
  - apply quote_inj in H as [-> ->]. auto.
  - rewrite !app_assoc_s, !app_cons, !app_empty in H.
    apply String_inv in H as [_ H].
    apply (items_inj print "]" eq_refl ltac:(discriminate) print_head l IHl)
      in H as [-> ->]. auto.
  - rewrite !app_assoc_s, !app_cons, !app_empty in H.
    apply String_inv in H as [_ H].
    apply (items_inj (fun kv => quote (fst kv) +:+ ":" +:+ print (snd kv))
                     "}" eq_refl ltac:(discriminate)) in H as [-> ->]; auto.
    + intros y. unfold quote. rewrite app_cons. eexists _, _.
      split; reflexivity.
    + eapply Forall_impl; [exact IHm|].
      intros [kx vx] IHv [ky vy] r r' Hr Hr'. cbn [fst snd] in *.
      rewrite !app_assoc_s. intros H'.
      apply quote_inj in H' as [-> H']. rewrite !app_cons, !app_empty in H'.
      apply String_inv in H' as [_ H']. apply IHv in H' as [-> ->]; auto.
Qed.

Lemma print_inj v v' : print v = print v' -> v = v'.
Proof.
  intros H.
  assert (H' : print v +:+ "" = print v' +:+ "") by now rewrite H.
  apply print_inj_prefix in H' as [-> _]; cbn; auto.
Qed.

(** ** Composite keys *)

Lemma canonical_VObj m :
  canonical (VObj m) = VObj (sort_keys (map canonical_entry m)).
Proof. reflexivity. Qed.

Lemma keys_canonical m : keys (map canonical_entry m) = keys m.
Proof. unfold keys. rewrite map_map. reflexivity. Qed.

Lemma get_canonical k m :
  get k (map canonical_entry m) = option_map canonical (get k m).
Proof.
  induction m as [|[k' v] m IH]; cbn; [reflexivity|].
  destruct (String.eqb k' k); [reflexivity|exact IH].
Qed.

Lemma get_In k v m : get k m = Some v -> In (k, v) m.
Proof.
  induction m as [|[k' v'] m IH]; cbn; [discriminate|].
  destruct (String.eqb_spec k' k) as [->|_].
  - intros [= ->]. auto.
  - auto.
Qed.

Lemma get_None k m : get k m = None -> ~ In k (keys m).
Proof.
  induction m as [|[k' v'] m IH]; cbn; [tauto|].
  destruct (String.eqb_spec k' k) as [->|Hne]; [discriminate|].
  intros H [Heq|Hin]; [congruence|]. now apply IH.
Qed.

Lemma In_get k v m : NoDup (keys m) -> In (k, v) m -> get k m = Some v.
Proof.
  induction m as [|[k' v'] m IH]; cbn; [tauto|].
  intros Hnd. apply NoDup_cons in Hnd as [Hk' Hnd].
  destruct (String.eqb_spec k' k) as [->|Hne].
  - intros [[= ->]|Hin]; [reflexivity|].
    exfalso. apply Hk'. apply list_elem_of_In.
    unfold keys. apply in_map_iff. exists (k, v). auto.
  - intros [[= Hk _]|Hin]; [contradiction|]. auto.
Qed.

Lemma get_Permutation k m m' :
  NoDup (keys m) -> m ≡ₚ m' -> get k m = get k m'.
Proof.
  intros Hnd Hp.
  assert (Hnd' : NoDup (keys m')).
  { unfold keys in *. now rewrite <- Hp. }
  destruct (get k m) as [v|] eqn:E.
  - symmetry. apply In_get; [assumption|].
    apply list_elem_of_In. rewrite <- Hp. apply list_elem_of_In.
    now apply get_In.
  - destruct (get k m') as [v'|] eqn:E'; [|reflexivity].
    apply get_None in E. exfalso. apply E.
    apply get_In in E'. unfold keys. apply in_map_iff. exists (k, v').
    split; [reflexivity|]. apply list_elem_of_In. rewrite Hp.
    now apply list_elem_of_In.
Qed.

#[local] Instance key_le_trans : Transitive key_le.
Proof. intros x y z. unfold key_le. apply transitivity. Qed.

#[local] Instance key_le_total : Total key_le.
Proof. intros x y. unfold key_le. apply total, _. Qed.

(** Sorting by key forgets the insertion order of an object. *)
Lemma sort_keys_Permutation m m' :
  NoDup (keys m) -> m ≡ₚ m' -> sort_keys m = sort_keys m'.
Proof.
  intros Hnd Hp. unfold sort_keys.
  apply (Sorted_unique_strong key_le).
  - intros x1 x2 H1 H2 H12 H21.
    rewrite merge_sort_Permutation in H1.
    rewrite merge_sort_Permutation, <- Hp in H2.
    assert (Hk : fst x1 = fst x2)
      by (apply (anti_symm String.le); assumption).
    destruct x1 as [k1 v1], x2 as [k2 v2]. cbn in Hk. subst k2.
    apply list_elem_of_In, (In_get _ _ _ Hnd) in H1, H2. congruence.
  - apply Sorted_merge_sort, _.
  - apply Sorted_merge_sort, _.
  - now rewrite !merge_sort_Permutation.
Qed.

Lemma get_sort_keys k m :
  NoDup (keys m) -> get k (sort_keys m) = get k m.
Proof.
  intros Hnd. symmetry. apply get_Permutation; [assumption|].
  unfold sort_keys. now rewrite merge_sort_Permutation.
Qed.

Lemma composite_key_eq skillName A B :
  composite_key skillName A = composite_key skillName B <->
  canonical (VObj A) = canonical (VObj B).
Proof.
  unfold composite_key, serialize. split.
  - intros H. apply String.app_inj in H. now apply print_inj.
  - now intros ->.
Qed.

Lemma composite_key_Permutation skillName A B :
  NoDup (keys A) -> A ≡ₚ B ->
  composite_key skillName A = composite_key skillName B.
Proof.
  intros Hnd Hp. apply composite_key_eq. rewrite !canonical_VObj.
  f_equal. apply sort_keys_Permutation.
  - now rewrite keys_canonical.
  - now apply Permutation_map.
Qed.

Lemma composite_key_values skillName A B k :
  NoDup (keys A) -> NoDup (keys B) ->
  composite_key skillName A = composite_key skillName B ->
  option_map canonical (get k A) = option_map canonical (get k B).
Proof.
  intros HA HB H. apply composite_key_eq in H.
  rewrite !canonical_VObj in H. injection H as H.
  rewrite <- !get_canonical.
  rewrite <- (get_sort_keys k (map canonical_entry A)),
          <- (get_sort_keys k (map canonical_entry B))
    by now rewrite keys_canonical.
  now rewrite H.
Qed.

(** ** Validation does not depend on the insertion order *)

Lemma first_failure_ext {A} (check check' : A -> option violation) l :
  (forall x, In x l -> check x = check' x) ->
  first_failure check l = first_failure check' l.
Proof.
  induction l as [|x l IH]; cbn; [reflexivity|]. intros H.
  rewrite <- (H x) by auto. destruct (check x); [reflexivity|]. auto.
Qed.

Lemma first_failure_none_iff {A} (check : A -> option violation) l :
  first_failure check l = None <-> forall x, In x l -> check x = None.
Proof.
  induction l as [|x l IH]; cbn; [tauto|].
  destruct (check x) eqn:E.
  - split; [discriminate|]. intros H. rewrite <- E. auto.
  - rewrite IH. split; [intros H y [<-|Hy]; auto|auto].
Qed.

Lemma has_key_Permutation k A B :
  NoDup (keys A) -> A ≡ₚ B -> has_key k A = has_key k B.
Proof. intros Hnd Hp. unfold has_key. now rewrite (get_Permutation k A B). Qed.

Lemma defaults_Permutation sc A B :
  NoDup (keys A) -> A ≡ₚ B -> defaults sc A = defaults sc B.
Proof.
  intros Hnd Hp. unfold defaults.
  induction (parameters sc) as [|p ps IH]; cbn; [reflexivity|].
  now rewrite IH, (has_key_Permutation _ A B).
Qed.

Lemma validate_inr sc A nA :
  validate sc A = inr nA <->
  first_failure (check_required A) (parameters sc) = None
  /\ first_failure (check_known sc) A = None
  /\ first_failure (check_kind A) (parameters sc) = None
  /\ first_failure (check_enum A) (parameters sc) = None
  /\ first_failure (check_range A) (parameters sc) = None
  /\ nA = A ++ defaults sc A.
Proof.
  unfold validate.
  destruct (first_failure (check_required A) _);
    [split; [discriminate|intros [? _]; discriminate]|].
  destruct (first_failure (check_known sc) _);
    [split; [discriminate|intros (_ & ? & _); discriminate]|].
  destruct (first_failure (check_kind A) _);
    [split; [discriminate|intros (_ & _ & ? & _); discriminate]|].
  destruct (first_failure (check_enum A) _);
    [split; [discriminate|intros (_ & _ & _ & ? & _); discriminate]|].
  destruct (first_failure (check_range A) _);
    [split; [discriminate|intros (_ & _ & _ & _ & ? & _); discriminate]|].
  split; [intros [= <-]; auto 10|intros (_ & _ & _ & _ & _ & ->); reflexivity].
Qed.

Lemma validate_Permutation sc A B nA :
  NoDup (keys A) -> A ≡ₚ B ->
  validate sc A = inr nA ->
  validate sc B = inr (B ++ defaults sc B) /\ nA ≡ₚ B ++ defaults sc B.
Proof.
  intros Hnd Hp H. apply validate_inr in H as (H1 & H2 & H3 & H4 & H5 & ->).
  split.
  - apply validate_inr. repeat split.
    + rewrite <- H1. apply first_failure_ext. intros p _.
      unfold check_required. now rewrite (has_key_Permutation _ A B).
    + rewrite first_failure_none_iff in *. intros x Hx. apply H2.
      apply list_elem_of_In. rewrite Hp. now apply list_elem_of_In.
    + rewrite <- H3. apply first_failure_ext. intros p _.
      unfold check_kind. now rewrite (get_Permutation _ A B).
    + rewrite <- H4. apply first_failure_ext. intros p _.
      unfold check_enum. now rewrite (get_Permutation _ A B).
    + rewrite <- H5. apply first_failure_ext. intros p _.
      unfold check_range. now rewrite (get_Permutation _ A B).
  - rewrite (defaults_Permutation sc A B) by assumption. now rewrite Hp.
Qed.

Lemma has_key_false k A : has_key k A = false -> ~ In k (keys A).
Proof.
  unfold has_key. destruct (get k A) eqn:E; [discriminate|].
  intros _. now apply get_None.
Qed.

Lemma keys_defaults sc A :
  NoDup (map p_name (parameters sc)) ->
  NoDup (keys (defaults sc A))
  /\ (forall k, In k (keys (defaults sc A)) ->
                In k (map p_name (parameters sc)) /\ ~ In k (keys A)).
Proof.
  unfold defaults. induction (parameters sc) as [|p ps IH]; cbn.
  - intros _. split; [constructor|tauto].
  - intros Hnd. apply NoDup_cons in Hnd as [Hp Hnd].
    destruct (IH Hnd) as [IH1 IH2].
    destruct (p_default p) as [v|]; cbn.
    + destruct (has_key (p_name p) A) eqn:Hk; cbn.
      * split; [assumption|]. intros k Hin. destruct (IH2 k Hin). auto.
      * split.
        -- apply NoDup_cons. split; [|assumption].
           intros Hin. apply list_elem_of_In in Hin.
           destruct (IH2 _ Hin) as [Hin' _].
           apply Hp. now apply list_elem_of_In.
        -- intros k [<-|Hin].
           ++ split; [auto|]. now apply has_key_false.
           ++ destruct (IH2 k Hin). auto.
    + split; [assumption|]. intros k Hin. destruct (IH2 k Hin). auto.
Qed.

Lemma normalized_NoDup sc A :
  NoDup (map p_name (parameters sc)) ->
  NoDup (keys A) ->
  NoDup (keys (A ++ defaults sc A)).
Proof.
  intros Hsc HA. unfold keys. rewrite map_app. apply NoDup_app.
  destruct (keys_defaults sc A Hsc) as [Hd Hin]. repeat split; auto.
  intros k Hk Hk'. apply list_elem_of_In in Hk, Hk'.
  destruct (Hin k Hk'). contradiction.
Qed.

Lemma get_app_l k A D v : get k A = Some v -> get k (A ++ D) = Some v.
Proof.
  induction A as [|[k' v'] A IH]; cbn; [discriminate|].
  destruct (String.eqb k' k); auto.
Qed.

Section Dispatcher.

Variable World : Type.

Abbreviation Registry := (Registry World).
Abbreviation session := (session World).
Abbreviation dispatch := (dispatch World).
Abbreviation resolve := (resolve World).
Abbreviation recorded := (recorded World).
Abbreviation sk_parameterSchema := (sk_parameterSchema World).
Abbreviation invocations := (invocations World).
Abbreviation deduplicator := (deduplicator World).
Abbreviation world := (world World).

(** C5, as the Validator's rule order makes it hold.  When the skill's
    schema does not allow additional properties and the argument map holds
    a key the schema does not declare, dispatch returns
    [Failure(ValidationFailed)] and leaves the session as it was: the
    handler is not invoked.  When every required parameter is present, the
    failure names an undeclared key of the argument map, the first in the
    order of the map.  Otherwise rule 1 comes first and the failure names
    a required parameter of the schema that the argument map lacks, the
    first in the order of the schema. *)
Theorem unknown_key_is_rejected :
  forall (r : Registry) (req : CallRequest) (s : session)
         (sk : skill World) (k : string),
    resolve r (skillName req) = Some sk ->
    additionalProperties (sk_parameterSchema sk) = false ->
    In k (keys (arguments req)) ->
    declares (sk_parameterSchema sk) k = false ->
    exists e,
      dispatch r req s = (Failure ValidationFailed (violation_message e), s)
      /\ (required_present (sk_parameterSchema sk) (arguments req) = true ->
          exists kv,
            e = UnknownParameter (fst kv)
            /\ In (fst kv) (keys (arguments req))
            /\ declares (sk_parameterSchema sk) (fst kv) = false
            /\ find (fun kv => negb (declares (sk_parameterSchema sk)
                                              (fst kv)))
                    (arguments req) = Some kv)
      /\ (required_present (sk_parameterSchema sk) (arguments req) = false ->
          exists p,
            e = MissingParameter (p_name p)
            /\ In p (parameters (sk_parameterSchema sk))
            /\ p_required p = true
            /\ has_key (p_name p) (arguments req) = false
            /\ find (fun p => p_required p
                              && negb (has_key (p_name p) (arguments req)))
                    (parameters (sk_parameterSchema sk)) = Some p).
Proof.
  intros r req s sk k Hres Hap Hin Hk.
  destruct (validate_unknown_key _ _ _ Hap Hin Hk) as (e & Hv & Hu & Hm).
  exists e. split; [|split].
  - unfold SkillCore.dispatch. rewrite Hres, Hv. reflexivity.
  - intros Hall. destruct (Hu Hall) as (kv & Hfind & ->).
    exists kv. pose proof Hfind as Hf.
    apply find_some in Hf as [Hkv Hd]. apply negb_true_iff in Hd.
    repeat split; auto.
    unfold keys. apply in_map_iff. exists kv. auto.
  - intros Hall. destruct (Hm Hall) as (p & Hfind & ->).
    exists p. pose proof Hfind as Hf.
    apply find_some in Hf as [Hp Hd]. apply andb_true_iff in Hd as [Hd1 Hd2].
    apply negb_true_iff in Hd2. repeat split; auto.
Qed.

Lemma dispatch_hit (r : Registry) req (s : session) sk nargs t :
  resolve r (skillName req) = Some sk ->
  validate (sk_parameterSchema sk) (arguments req) = inr nargs ->
  getCachedResult (deduplicator s) (skillName req) nargs = Some t ->
  dispatch r req s = (Success t, s).
Proof.
  intros Hr Hv Hc. unfold SkillCore.dispatch. now rewrite Hr, Hv, Hc.
Qed.

Lemma dispatch_miss (r : Registry) req (s : session) sk nargs :
  resolve r (skillName req) = Some sk ->
  validate (sk_parameterSchema sk) (arguments req) = inr nargs ->
  getCachedResult (deduplicator s) (skillName req) nargs = None ->
  exists o s',
    dispatch r req s = (o, s')
    /\ invocations s' = invocations s ++ [(skillName req, nargs)]
    /\ (forall key : string,
           key <> composite_key (skillName req) nargs ->
           deduplicator s' !! key = deduplicator s !! key).
Proof.
  intros Hr Hv Hc. unfold SkillCore.dispatch. rewrite Hr, Hv, Hc.
  destruct (SkillCore.sk_handler World sk nargs _) as [[result|msg|] w];
    eexists _, _; (split; [reflexivity|]); cbn; (split; [reflexivity|]);
    auto.
  intros key Hkey. unfold recordResult. now rewrite lookup_insert_ne.
Qed.

Lemma dispatch_success (r : Registry) req (s s1 : session) t :
  dispatch r req s = (Success t, s1) ->
  exists sk nargs,
    resolve r (skillName req) = Some sk
    /\ validate (sk_parameterSchema sk) (arguments req) = inr nargs
    /\ getCachedResult (deduplicator s1) (skillName req) nargs = Some t.
Proof.
  unfold SkillCore.dispatch.
  destruct (SkillCore.resolve World r (skillName req)) as [sk|];
    [|discriminate].
  destruct (validate _ _) as [e|nargs] eqn:Hv; [discriminate|].
  destruct (getCachedResult _ _ _) as [cached|] eqn:Hc.
  - intros [= -> ->]. exists sk, nargs. auto.
  - destruct (SkillCore.sk_handler World sk nargs _) as [[result|msg|] w];
      try discriminate.
    intros [= -> <-]. exists sk, nargs. do 2 (split; [auto|]).
    unfold getCachedResult, recordResult. cbn. apply lookup_insert_eq.
Qed.

Lemma recorded_false (r : Registry) req (s : session) sk nargs :
  resolve r (skillName req) = Some sk ->
  validate (sk_parameterSchema sk) (arguments req) = inr nargs ->
  recorded r req s = false ->
  getCachedResult (deduplicator s) (skillName req) nargs = None.
Proof.
  intros Hr Hv. unfold SkillCore.recorded. rewrite Hr, Hv.
  unfold isDuplicate, getCachedResult. intros H.
  apply bool_decide_eq_false in H.
  destruct (_ !! _) eqn:E; [|reflexivity]. destruct H. eauto.
Qed.

(** C4. Canonicalization does not see the insertion order of the argument
    keys and does see the values.  Two argument maps that hold the same
    properties in a different order have the same composite key, and after
    a successful dispatch of the one, the dispatch of the other is a cache
    hit: it returns the cached text and changes nothing.  Two argument maps
    that differ at some key, in the value or in its presence, have
    different composite keys (values are compared after canonicalization,
    which only reorders the keys of nested objects), and when both maps are
    valid and new to the session, dispatching the one and then the other
    invokes the handler on both. *)
Theorem composite_key_canonical :
  forall (skillName : string) (A B : object),
    NoDup (keys A) -> NoDup (keys B) ->
    (A ≡ₚ B ->
     composite_key skillName A = composite_key skillName B
     /\ forall (r : Registry) sk (s s1 : session) t,
         resolve r skillName = Some sk ->
         NoDup (map p_name (parameters (sk_parameterSchema sk))) ->
         dispatch r (mkRequest skillName A) s = (Success t, s1) ->
         dispatch r (mkRequest skillName B) s1 = (Success t, s1))
    /\ (forall k,
           option_map canonical (get k A) <> option_map canonical (get k B) ->
           composite_key skillName A <> composite_key skillName B)
    /\ (forall k a b (r : Registry) sk (s : session) nA nB,
           get k A = Some a -> get k B = Some b ->
           canonical a <> canonical b ->
           resolve r skillName = Some sk ->
           NoDup (map p_name (parameters (sk_parameterSchema sk))) ->
           validate (sk_parameterSchema sk) A = inr nA ->
           validate (sk_parameterSchema sk) B = inr nB ->
           recorded r (mkRequest skillName A) s = false ->
           recorded r (mkRequest skillName B) s = false ->
           invocations
             (snd (dispatch r (mkRequest skillName B)
                            (snd (dispatch r (mkRequest skillName A) s))))
           = invocations s ++ [(skillName, nA); (skillName, nB)]).
Proof.
  intros skillName A B HA HB. split; [|split].
  - intros Hp. split; [now apply composite_key_Permutation|].
    intros r sk s s1 t Hr Hsc Hd.
    apply dispatch_success in Hd as (sk' & nA & Hr' & Hv & Hc).
    cbn [SkillCore.skillName SkillCore.arguments] in *.
    assert (sk' = sk) as -> by congruence.
    destruct (validate_Permutation _ A B nA HA Hp Hv) as [Hv' Hp'].
    apply (dispatch_hit _ _ _ sk (B ++ defaults (sk_parameterSchema sk) B));
      auto.
    cbn [SkillCore.skillName]. unfold getCachedResult in *.
    rewrite <- (composite_key_Permutation skillName nA); auto.
    apply validate_inr in Hv as (_ & _ & _ & _ & _ & ->).
    now apply normalized_NoDup.
  - intros k Hk Hkey. apply Hk. now apply (composite_key_values skillName).
  - intros k a b r sk s nA nB Ha Hb Hab Hr Hsc HvA HvB HrA HrB.
    assert (Hkeys : composite_key skillName nB <> composite_key skillName nA).
    { intros Hkey.
      pose proof HvA as HnA. pose proof HvB as HnB.
      apply validate_inr in HnA as (_ & _ & _ & _ & _ & ->).
      apply validate_inr in HnB as (_ & _ & _ & _ & _ & ->).
      apply (composite_key_values _ _ _ k) in Hkey;
        try now apply normalized_NoDup.
      rewrite (get_app_l _ _ _ _ Ha), (get_app_l _ _ _ _ Hb) in Hkey.
      cbn in Hkey. congruence. }
    pose proof (recorded_false r (mkRequest skillName A) s sk nA Hr HvA HrA)
      as HcA.
    pose proof (recorded_false r (mkRequest skillName B) s sk nB Hr HvB HrB)
      as HcB.
    destruct (dispatch_miss r (mkRequest skillName A) s sk nA Hr HvA HcA)
      as (o1 & s1 & -> & Hi1 & Hd1).
    cbn [snd].
    assert (HcB1 : getCachedResult (deduplicator s1) skillName nB = None).
    { unfold getCachedResult in *. now rewrite Hd1. }
    destruct (dispatch_miss r (mkRequest skillName B) s1 sk nB Hr HvB HcB1)
      as (o2 & s2 & -> & Hi2 & _).
    cbn [snd]. rewrite Hi2, Hi1, <- app_assoc. reflexivity.
Qed.

(** A failed dispatch, in the dispatch core: a handler error (or a
    timeout) is not recorded, so the same request is still new to the
    session and its next dispatch invokes the handler again. *)
Lemma failed_dispatch_not_recorded (r : Registry) req (s s1 : session)
      kind msg :
  kind = HandlerError \/ kind = HandlerTimeout ->
  dispatch r req s = (Failure kind msg, s1) ->
  deduplicator s1 = deduplicator s
  /\ recorded r req s1 = false
  /\ invocations s1
     = invocations s
       ++ [(skillName req,
            match resolve r (skillName req) with
            | Some sk =>
                match validate (sk_parameterSchema sk) (arguments req) with
                | inr nargs => nargs
                | inl _ => []
                end
            | None => []
            end)].
Proof.
  intros Hkind. unfold SkillCore.dispatch, SkillCore.recorded.
  destruct (SkillCore.resolve World r (skillName req)) as [sk|].
  2: { intros [= <- _ _]. destruct Hkind; discriminate. }
  destruct (validate _ _) as [e|nargs].
  { intros [= <- _ _]. destruct Hkind; discriminate. }
  unfold getCachedResult, isDuplicate.
  destruct (SkillCore.deduplicator World s !! _) as [cached|] eqn:Hc;
    [discriminate|].
  destruct (SkillCore.sk_handler World sk nargs _) as [[result|m|] w];
    [discriminate| |]; intros [= _ _ <-]; cbn; rewrite Hc;
    repeat split; apply bool_decide_eq_false; intros [x Hx]; discriminate.
Qed.

(** A successful dispatch, repeated: the second dispatch of the same
    request returns the same text from the cache and changes nothing, so
    the handler is not invoked again; if the session held no record of the
    request, the first dispatch invoked the handler once. *)
Lemma dispatch_twice (r : Registry) (req : CallRequest) (s s1 : session) t :
  dispatch r req s = (Success t, s1) ->
  dispatch r req s1 = (Success t, s1)
  /\ (recorded r req s = false ->
      List.length (invocations s1) = S (List.length (invocations s))).
Proof.
  unfold SkillCore.dispatch, SkillCore.recorded.
  destruct (SkillCore.resolve World r (skillName req)) as [sk|];
    [|discriminate].
  destruct (validate _ _) as [e|nargs]; [discriminate|].
  unfold getCachedResult, isDuplicate.
  destruct (SkillCore.deduplicator World s !! _) as [cached|] eqn:Hc.
  - intros [= -> ->]. rewrite Hc. split; [reflexivity|].
    intros H. apply bool_decide_eq_false in H. destruct H. eauto.
  - destruct (SkillCore.sk_handler World sk nargs _) as [[result|msg|] w];
      try discriminate.
    intros [= -> <-]. cbn. unfold recordResult.
    rewrite lookup_insert_eq. split; [reflexivity|].
    intros _. rewrite length_app. cbn. lia.
Qed.

End Dispatcher.

(** C5, where the claim as stated fails: the argument map [{extra: 1}]
    holds an unknown key and lacks the required [text]; the failure names
    the missing parameter, not the unknown one. *)
Lemma unknown_key_reported_as_missing :
  dispatch nat Fixtures.registry
           (mkRequest "text-analyzer" [("extra", VNum 1)])
           Fixtures.fresh_session
  = (Failure ValidationFailed "MissingParameter(text)",
     Fixtures.fresh_session)
  /\ "MissingParameter(text)" <> "UnknownParameter(extra)".
Proof. split; [vm_compute; reflexivity|discriminate]. Qed.

Lemma unknown_key_is_rejected_witness :
  let req := mkRequest "text-analyzer"
                       [("text", VStr "hi");
                        ("analysis_type", VStr "keywords");
                        ("extra", VNum 1)] in
  let sk := Fixtures.text_analyzer in
  resolve nat Fixtures.registry (skillName req) = Some sk
  /\ additionalProperties (sk_parameterSchema nat sk) = false
  /\ In "extra" (keys (arguments req))
  /\ declares (sk_parameterSchema nat sk) "extra" = false
  /\ dispatch nat Fixtures.registry req Fixtures.fresh_session
     = (Failure ValidationFailed "UnknownParameter(extra)",
        Fixtures.fresh_session).
Proof.
  intros req sk.
  assert (H1 : resolve nat Fixtures.registry (skillName req) = Some sk)
    by reflexivity.
  assert (H2 : additionalProperties (sk_parameterSchema nat sk) = false)
    by reflexivity.
  assert (H3 : In "extra" (keys (arguments req))) by (cbn; tauto).
  assert (H4 : declares (sk_parameterSchema nat sk) "extra" = false)
    by reflexivity.
  repeat (split; [assumption|]).
  destruct (unknown_key_is_rejected nat Fixtures.registry req
              Fixtures.fresh_session sk "extra" H1 H2 H3 H4)
    as (e & He & Hu & _).
  destruct (Hu eq_refl) as (kv & -> & _ & _ & Hfind).
  vm_compute in Hfind. injection Hfind as <-. exact He.
Defined.

Lemma composite_key_canonical_witness :
  let A := [("a", VNum 1); ("b", VNum 2)] in
  let B := [("b", VNum 2); ("a", VNum 1)] in
  NoDup (keys A) /\ NoDup (keys B) /\ A ≡ₚ B
  /\ composite_key "echo" A = composite_key "echo" B.
Proof.
  intros A B.
  assert (HA : NoDup (keys A)) by (apply (bool_decide_unpack _); vm_compute; exact I).
  assert (HB : NoDup (keys B)) by (apply (bool_decide_unpack _); vm_compute; exact I).
  assert (HP : A ≡ₚ B) by apply perm_swap.
  repeat (split; [assumption|]).
  apply (composite_key_canonical nat "echo" A B HA HB). exact HP.
Defined.

(** ** Dispatching the same call twice *)

(** C1, as the code has it.  In the dispatch core, when the session holds
    no record of a request and its dispatch succeeds, the second dispatch
    of the same request returns the identical text from the cache and the
    handler has been invoked exactly once.  The text-analyzer handler keeps
    its own tracker instead: when a call is new to the tracker, asks for
    one of the four analyses and carries a string, the analysis runs once,
    in the first call, and a second call with the same [{text,
    analysis_type}] returns the fixed notice, which differs from the
    result text of the first call. *)
Theorem repeated_dispatch_runs_once :
  (forall (World : Type) (r : Registry World) (req : CallRequest)
          (s s1 : session World) (t : string),
      recorded World r req s = false ->
      dispatch World r req s = (Success t, s1) ->
      dispatch World r req s1 = (Success t, s1)
      /\ List.length (invocations World s1)
         = S (List.length (invocations World s)))
  /\ (forall (toFixed1 : TextAnalyzer.quotient -> string) (double : Type)
             (gradeLevel : nat -> nat -> nat -> double)
             (double_lt : double -> nat -> bool)
             (double_to_string : double -> string)
             (TypeError_message : value -> string -> string)
             (caller : string) (Deduplicator : Type)
             (isDuplicate : Deduplicator -> string -> object -> bool)
             (trackRun : Deduplicator -> string -> object -> Deduplicator)
             (args : object) (s : TextAnalyzer.state Deduplicator)
             (f : TextAnalyzer.analysis) (text : string),
         (forall d k a, isDuplicate (trackRun d k a) k a = true) ->
         TextAnalyzer.duplicate Deduplicator isDuplicate s args = false ->
         TextAnalyzer.route (TextAnalyzer.analysis_type_of args) = Some f ->
         TextAnalyzer.text_of args = VStr text ->
         let call :=
           TextAnalyzer.handler toFixed1 double gradeLevel double_lt
                                double_to_string TypeError_message caller
                                Deduplicator isDuplicate trackRun args in
         let run :=
           TextAnalyzer.events toFixed1 double gradeLevel double_lt
                               double_to_string TypeError_message caller
                               Deduplicator isDuplicate trackRun args in
         let result :=
           TextAnalyzer.analyze toFixed1 double gradeLevel double_lt
                                double_to_string f text in
         fst (call s) = TextAnalyzer.Normal result
         /\ fst (call (snd (call s)))
            = TextAnalyzer.Normal TextAnalyzer.duplicate_notice
         /\ TextAnalyzer.analyses (run s ++ run (snd (call s))) = 1
         /\ result <> TextAnalyzer.duplicate_notice).
Proof.
  split.
  - intros World r req s s1 t Hnew Hd.
    destruct (dispatch_twice World r req s s1 t Hd) as [H2 Hn]. auto.
  - intros. now apply TextAnalyzerFacts.repeated_call.
Qed.

Lemma fixture_tracker_law (d : list string) k a :
  Fixtures.isDuplicate (Fixtures.trackRun d k a) k a = true.
Proof. apply bool_decide_eq_true. left. Qed.

Lemma repeated_dispatch_runs_once_witness :
  let req := mkRequest "text-analyzer"
                       [("text", VStr "hi");
                        ("analysis_type", VStr "keywords")] in
  let s1 := snd (dispatch nat Fixtures.registry req Fixtures.fresh_session) in
  (recorded nat Fixtures.registry req Fixtures.fresh_session = false
   /\ dispatch nat Fixtures.registry req Fixtures.fresh_session
      = (Success "done", s1)
   /\ dispatch nat Fixtures.registry req s1 = (Success "done", s1))
  /\ (TextAnalyzer.duplicate (list string) Fixtures.isDuplicate
                             Fixtures.start Fixtures.keywords_call = false
      /\ fst (Fixtures.handler Fixtures.keywords_call
                (snd (Fixtures.handler Fixtures.keywords_call
                                       Fixtures.start)))
         = TextAnalyzer.Normal TextAnalyzer.duplicate_notice).
Proof.
  intros req s1. split.
  - assert (H1 : recorded nat Fixtures.registry req Fixtures.fresh_session
                 = false) by (vm_compute; reflexivity).
    assert (H2 : dispatch nat Fixtures.registry req Fixtures.fresh_session
                 = (Success "done", s1)) by (vm_compute; reflexivity).
    repeat (split; [assumption|]).
    apply (proj1 repeated_dispatch_runs_once nat Fixtures.registry req
                 Fixtures.fresh_session s1 "done" H1 H2).
  - assert (H1 : TextAnalyzer.duplicate (list string) Fixtures.isDuplicate
                   Fixtures.start Fixtures.keywords_call = false)
      by (vm_compute; reflexivity).
    split; [assumption|].
    apply (proj2 repeated_dispatch_runs_once
                 Fixtures.toFixed1 Double.double Fixtures.gradeLevel
                 Fixtures.grade_lt Fixtures.grade_to_string
                 Fixtures.TypeError_message "agent" (list string)
                 Fixtures.isDuplicate Fixtures.trackRun
                 Fixtures.keywords_call Fixtures.start
                 TextAnalyzer.Keywords "twice upon a time"
                 fixture_tracker_law H1 eq_refl eq_refl).
Defined.

(** C1, where the claim as stated fails: the second call of the
    text-analyzer handler with the same text and analysis type returns the
    notice, not the result text of the first call. *)
Lemma second_call_returns_notice :
  let first := Fixtures.handler Fixtures.keywords_call Fixtures.start in
  let second := Fixtures.handler Fixtures.keywords_call (snd first) in
  fst first
  = TextAnalyzer.Normal "**Top Keywords:** twice (1), upon (1), time (1)"
  /\ fst second
     = TextAnalyzer.Normal
         "This text has already been analyzed. The results are shown above."
  /\ fst first <> fst second.
Proof.
  cbv zeta. split; [vm_compute; reflexivity|].
  split; [vm_compute; reflexivity|].
  vm_compute. discriminate.
Qed.

End SkillCoreFacts.

(* ===================================================================== *)
(** * More properties of the MCP server stubs                             *)
(* ===================================================================== *)

Module McpStubFacts.

Import McpServers.

(** ** Decimal ids *)

Lemma string_of_uint_injective d d' :
  NilEmpty.string_of_uint d = NilEmpty.string_of_uint d' -> d = d'.
Proof.
  intros H. apply (f_equal NilEmpty.uint_of_string) in H.
  rewrite !NilEmpty.usu in H. congruence.
Qed.

Lemma N_to_string_injective n n' :
  Js.N_to_string n = Js.N_to_string n' -> n = n'.
Proof.
  unfold Js.N_to_string. intros H.
  apply DecimalN.Unsigned.to_uint_inj. now apply string_of_uint_injective.
Qed.

(** The decimal form of a number is normal: it has no leading zero,
    unless it is "0". *)
Lemma N_to_string_normal n d :
  Js.N_to_string n = NilEmpty.string_of_uint d -> unorm d = d.
Proof.
  unfold Js.N_to_string. intros H. apply string_of_uint_injective in H.
  subst d. rewrite <- DecimalN.Unsigned.to_of.
  now rewrite DecimalN.Unsigned.of_to.
Qed.

Lemma app_inv_head_s (p s t : string) : p +:+ s = p +:+ t -> s = t.
Proof. apply String.app_inj. Qed.

Section Facts.

Variable toISOString : N -> string.
Variable Fields : Type.

Abbreviation createDocument := (createDocument toISOString).
Abbreviation updateDocument := (updateDocument toISOString).
Abbreviation getDocument := (getDocument toISOString).
Abbreviation queryRecords := (queryRecords toISOString).
Abbreviation createRecord := (createRecord toISOString Fields).
Abbreviation updateRecord := (updateRecord toISOString Fields).
Abbreviation stamp := (stamp toISOString).

(** X1. The id of a created document is "doc_" followed by the clock
    reading in decimal, and the id of a created record is "rec_" followed
    by it; so two creations get the same id exactly when they read the
    same millisecond, whatever they create. *)
Theorem created_ids_follow_the_clock :
  forall (title content title' content' objectType objectType' : string)
         (fields fields' : Fields) (w w' : world),
    doc_id (fst (createDocument title content w))
    = "doc_" +:+ Js.N_to_string (clock w (reads w))
    /\ new_id Fields (fst (createRecord objectType fields w))
       = "rec_" +:+ Js.N_to_string (clock w (reads w))
    /\ (doc_id (fst (createDocument title content w))
        = doc_id (fst (createDocument title' content' w'))
        <-> clock w (reads w) = clock w' (reads w'))
    /\ (new_id Fields (fst (createRecord objectType fields w))
        = new_id Fields (fst (createRecord objectType' fields' w'))
        <-> clock w (reads w) = clock w' (reads w')).
Proof.
  intros. cbn. split; [reflexivity|]. split; [reflexivity|]. split; split.
  - intros H. now apply app_inv_head_s, N_to_string_injective in H.
  - now intros ->.
  - intros H. now apply app_inv_head_s, N_to_string_injective in H.
  - now intros ->.
Qed.

(** X2. The stubs keep no documents and no records.  Fetching a document
    right after creating or updating it returns the fixed sample title and
    content under the requested id, not what was written; and the two
    records of a query never include a record just created, since no
    clock reading prints as "001" or "002". *)
Theorem stubs_keep_no_state :
  forall (title content documentId objectType : string)
         (newTitle newContent filter : option string)
         (fields : Fields) (w : world),
    (let created := createDocument title content w in
     let fetched := fst (getDocument (doc_id (fst created)) (snd created)) in
     got_id fetched = doc_id (fst created)
     /\ got_title fetched = "Sample Document"
     /\ got_content fetched = "This is the document content")
    /\ (let updated := updateDocument documentId newTitle newContent w in
        let fetched := fst (getDocument documentId (snd updated)) in
        got_id fetched = documentId
        /\ got_title fetched = "Sample Document"
        /\ got_content fetched = "This is the document content")
    /\ (let created := createRecord objectType fields w in
        Forall (fun r => rec_id r <> new_id Fields (fst created))
               (fst (queryRecords objectType filter (snd created)))).
Proof.
  intros. split; [|split].
  - cbn. auto.
  - cbn. auto.
  - cbn. repeat constructor; cbn; intros H.
    + change "rec_001" with ("rec_" +:+ "001") in H.
      apply app_inv_head_s in H; symmetry in H.
      apply (N_to_string_normal _ (D0 (D0 (D1 Nil)))) in H. discriminate.
    + change "rec_002" with ("rec_" +:+ "002") in H.
      apply app_inv_head_s in H; symmetry in H.
      apply (N_to_string_normal _ (D0 (D0 (D2 Nil)))) in H. discriminate.
Qed.

(** X3. What a stub does to the world: it writes exactly one line to the
    console, after the lines already there, and takes one clock reading
    ([updateDocument], [updateRecord]) or two (the others); the clock
    itself and the earlier output stay as they were. *)
Theorem stubs_effects :
  forall (objectType documentId recordId title content : string)
         (filter newTitle newContent : option string)
         (fields : Fields) (w : world),
    snd (queryRecords objectType filter w)
    = mkWorld (clock w) (S (S (reads w)))
              (console w ++ ["Querying " +:+ objectType
                             +:+ " records with filter: "
                             +:+ Js.or_else filter "none"])
    /\ snd (createDocument title content w)
       = mkWorld (clock w) (S (S (reads w)))
                 (console w ++ ["Creating document with title: " +:+ title])
    /\ snd (getDocument documentId w)
       = mkWorld (clock w) (S (S (reads w)))
                 (console w ++ ["Fetching document with ID: "
                                +:+ documentId])
    /\ snd (updateDocument documentId newTitle newContent w)
       = mkWorld (clock w) (S (reads w))
                 (console w ++ ["Updating document with ID: "
                                +:+ documentId])
    /\ snd (createRecord objectType fields w)
       = mkWorld (clock w) (S (S (reads w)))
                 (console w ++ ["Creating new " +:+ objectType
                                +:+ " record"])
    /\ snd (updateRecord recordId objectType fields w)
       = mkWorld (clock w) (S (reads w))
                 (console w ++ ["Updating " +:+ objectType
                                +:+ " record with ID: " +:+ recordId]).
Proof. intros. cbn. auto 10. Qed.

End Facts.

End McpStubFacts.

(* ===================================================================== *)
(** * More properties of the analysis functions                           *)
(* ===================================================================== *)

Module AnalysisFacts.

Import Json TextAnalyzer TextAnalyzerFacts Measures.

(** ** The entries of [wordFreq] *)

Lemma own_Some_key o k c : own o k = Some c -> In k (map fst o).
Proof.
  intros H. apply own_In in H. apply in_map_iff. exists (k, c). auto.
Qed.

Lemma count_word_NoDup o w :
  NoDup (map fst o) -> NoDup (map fst (count_word o w)).
Proof.
  intros Hnd. unfold count_word, assign.
  destruct (own o w) eqn:Hown.
  - now rewrite replace_own_keys.
  - destruct (String.eqb w "__proto__"); [assumption|].
    rewrite map_app. cbn. apply NoDup_app. repeat split; auto.
    + intros k Hk Hk'. apply list_elem_of_In in Hk.
      apply list_elem_of_In in Hk'. destruct Hk' as [<-|[]].
      now apply own_None in Hown.
    + apply NoDup_singleton.
Qed.

Lemma count_words_NoDup ws : NoDup (map fst (count_words ws)).
Proof.
  unfold count_words.
  assert (H : forall l o, NoDup (map fst o) ->
                          NoDup (map fst (fold_left count_word l o))).
  { induction l as [|w l IH]; intros o Ho; cbn; [assumption|].
    apply IH. now apply count_word_NoDup. }
  apply H. constructor.
Qed.

Lemma insert_index_Permutation {A} (x : N * A) l :
  insert_index x l ≡ₚ x :: l.
Proof.
  induction l as [|y l IH]; cbn; [reflexivity|].
  destruct (fst x <=? fst y)%N; [reflexivity|].
  rewrite IH. apply perm_swap.
Qed.

Lemma index_entries_Permutation o :
  map snd (index_entries o) ≡ₚ List.filter (fun e => is_index (fst e)) o.
Proof.
  induction o as [|e o IH]; cbn; [reflexivity|].
  unfold is_index at 1. destruct (array_index (fst e)) as [n|]; cbn.
  - rewrite insert_index_Permutation. cbn. now rewrite IH.
  - exact IH.
Qed.

Lemma filter_split {A} (f : A -> bool) l :
  List.filter f l ++ List.filter (fun x => negb (f x)) l ≡ₚ l.
Proof.
  induction l as [|x l IH]; cbn; [reflexivity|].
  destruct (f x); cbn.
  - now rewrite IH.
  - rewrite <- Permutation_middle. now rewrite IH.
Qed.

(** [Object.entries] lists every own property, once. *)
Lemma entries_Permutation o : entries o ≡ₚ o.
Proof.
  unfold entries. rewrite index_entries_Permutation.
  apply (filter_split (fun e => is_index (fst e))).
Qed.

Lemma sort_insert_Permutation {A} (cmp : A -> A -> number) x l :
  sort_insert cmp x l ≡ₚ x :: l.
Proof.
  induction l as [|y l IH]; cbn; [reflexivity|].
  destruct (SortCompare cmp x y <=? 0)%Z; [reflexivity|].
  rewrite IH. apply perm_swap.
Qed.

(** [Array.prototype.sort] rearranges; it neither drops nor repeats. *)
Lemma sort_Permutation {A} (cmp : A -> A -> number) l : sort cmp l ≡ₚ l.
Proof.
  induction l as [|x l IH]; cbn; [reflexivity|].
  now rewrite sort_insert_Permutation, IH.
Qed.

Lemma sorted_entries_Permutation text :
  sort by_frequency (entries (count_words (lower_words text)))
  ≡ₚ count_words (lower_words text).
Proof. now rewrite sort_Permutation, entries_Permutation. Qed.

(** X4. No keyword is listed twice. *)
Theorem keywords_distinct : forall text : string, NoDup (keywords text).
Proof.
  intros text. unfold keywords, top_entries.
  rewrite <- firstn_map.
  eapply sublist_NoDup; [|apply sublist_take].
  rewrite sorted_entries_Permutation. apply count_words_NoDup.
Qed.


(** ** Which words are counted *)

Lemma In_remove_dups (k : string) l : In k (remove_dups l) <-> In k l.
Proof. rewrite <- !list_elem_of_In. apply elem_of_remove_dups. Qed.

Lemma count_word_keeps o w k :
  In k (map fst o) -> In k (map fst (count_word o w)).
Proof.
  unfold count_word, assign. destruct (own o w).
  - now rewrite replace_own_keys.
  - destruct (String.eqb w "__proto__"); [auto|].
    rewrite map_app, in_app_iff. auto.
Qed.

Lemma count_word_adds o w :
  w <> "__proto__" -> In w (map fst (count_word o w)).
Proof.
  intros Hw. unfold count_word, assign. destruct (own o w) eqn:Hown.
  - rewrite replace_own_keys. eapply own_Some_key, Hown.
  - destruct (String.eqb_spec w "__proto__"); [contradiction|].
    rewrite map_app, in_app_iff. cbn. auto.
Qed.

Lemma count_word_no_proto o w :
  ~ In "__proto__" (map fst o) ->
  ~ In "__proto__" (map fst (count_word o w)).
Proof.
  intros Ho H. pose proof H as H'.
  apply count_word_keys in H' as [<-|H']; [|contradiction].
  unfold count_word, assign in H.
  destruct (own o "__proto__") eqn:Hown.
  - apply Ho. eapply own_Some_key, Hown.
  - rewrite String.eqb_refl in H. contradiction.
Qed.

Lemma fold_count_word_spec ws o k :
  ~ In "__proto__" (map fst o) ->
  In k (map fst (fold_left count_word ws o))
  <-> (In k ws /\ k <> "__proto__") \/ In k (map fst o).
Proof.
  revert o. induction ws as [|w ws IH]; intros o Ho; cbn.
  - tauto.
  - rewrite IH by now apply count_word_no_proto. split.
    + intros [[H1 H2]|H]; [tauto|].
      destruct (String.eqb_spec k "__proto__") as [->|Hne].
      * now apply count_word_no_proto in H.
      * apply count_word_keys in H as [->|H]; tauto.
    + intros [[[<-|H1] H2]|H].
      * right. now apply count_word_adds.
      * tauto.
      * right. now apply count_word_keeps.
Qed.

(** The keys of [wordFreq]: the words that pass the filter, but for
    "__proto__". *)
Lemma count_words_keys text k :
  In k (map fst (count_words (lower_words text)))
  <-> In k (kept_words text) /\ k <> "__proto__".
Proof.
  unfold count_words, kept_words.
  rewrite fold_count_word_spec by (cbn; tauto). split.
  - intros [[H1 H2]|[]]. split; [|assumption]. now apply In_remove_dups.
  - intros [H1 H2]. left. split; [|assumption]. now apply In_remove_dups.
Qed.

Lemma keywords_In_keys text k :
  In k (keywords text) -> In k (map fst (count_words (lower_words text))).
Proof.
  unfold keywords. rewrite !in_map_iff. intros (e & <- & He).
  exists e. split; [reflexivity|]. now apply top_entries_In.
Qed.

Lemma count_words_length text :
  List.length (count_words (lower_words text))
  <= List.length (kept_words text).
Proof.
  rewrite <- (length_map fst).
  apply submseteq_length, NoDup_submseteq; [apply count_words_NoDup|].
  intros k Hk. apply list_elem_of_In, count_words_keys in Hk as [Hk _].
  now apply list_elem_of_In.
Qed.

(** X5. Every counted word is reported when there is room for all.  The
    word "__proto__" is never reported, whatever its frequency; and when
    the text has at most ten distinct words that pass the filter, the
    keywords are exactly those words, but for "__proto__". *)
Theorem keywords_complete :
  forall text : string,
    ~ In "__proto__" (keywords text)
    /\ (List.length (kept_words text) <= 10 ->
        forall w, In w (keywords text)
                  <-> In w (kept_words text) /\ w <> "__proto__").
Proof.
  intros text. split.
  - intros H. apply keywords_In_keys, count_words_keys in H. tauto.
  - intros Hlen w. rewrite <- count_words_keys.
    unfold keywords, top_entries. rewrite take_ge.
    + rewrite <- !(list_elem_of_In _ w).
      now rewrite sorted_entries_Permutation.
    + rewrite sorted_entries_Permutation.
      pose proof (count_words_length text). lia.
Qed.

(** X6. The result is the bare heading exactly when no word of the text
    passes the filter, "__proto__" apart. *)
Theorem keywords_empty_iff :
  forall text : string,
    (analyzeKeywords text = "**Top Keywords:** " <-> keywords text = [])
    /\ (keywords text = []
        <-> forall w, In w (lower_words text) ->
                      keep_word w = true -> w = "__proto__").
Proof.
  intros text. split.
  - unfold analyzeKeywords, topKeywords, keywords. split.
    + destruct (top_entries text) as [|e es]; [reflexivity|].
      cbn [map]. intros H.
      change "**Top Keywords:** " with ("**Top Keywords:** " +:+ "") in H at 2.
      apply String.app_inj in H. exfalso.
      destruct es; cbn in H.
      * destruct (fst e); discriminate.
      * destruct (fst e); discriminate.
    + destruct (top_entries text); [reflexivity|discriminate].
  - split.
    + intros Hnil w Hw Hk.
      destruct (String.eqb_spec w "__proto__") as [|Hne]; [assumption|].
      exfalso.
      assert (Hin : In w (map fst (count_words (lower_words text)))).
      { apply count_words_keys. split; [|assumption].
        unfold kept_words. apply In_remove_dups, filter_In. auto. }
      apply in_map_iff in Hin as (e & _ & He).
      apply list_elem_of_In in He.
      rewrite <- sorted_entries_Permutation in He.
      unfold keywords, top_entries in Hnil.
      destruct (sort by_frequency _); [now apply elem_of_nil in He|].
      discriminate Hnil.
    + intros Hall. destruct (keywords text) as [|k ks] eqn:E; [reflexivity|].
      exfalso.
      assert (Hk : In k (keywords text)) by (rewrite E; now left).
      apply keywords_In_keys, count_words_keys in Hk as [Hk Hne].
      unfold kept_words in Hk.
      apply In_remove_dups, filter_In in Hk as [Hk1 Hk2].
      apply Hne. auto.
Qed.

(** ** The ten most frequent *)

(** Without the word "constructor", every entry of [wordFreq] carries the
    occurrence count of its word. *)
Lemma entries_counted text :
  ~ In "constructor" (lower_words text) ->
  forall e, In e (count_words (lower_words text)) ->
            snd e = CNum (occurrences (fst e) text).
Proof.
  intros Hc.
  assert (Hcounted : counted (List.filter keep_word (lower_words text))
                             (count_words (lower_words text))).
  { apply (counted_fold (List.filter keep_word (lower_words text)) [] []);
      [| |apply counted_empty].
    - rewrite filter_In. tauto.
    - intros w Hw. apply filter_In in Hw as [Hw _].
      eapply lower_words_no_upper, Hw. }
  destruct Hcounted as [_ Hent _].
  intros [k c] Hk. destruct (Hent _ _ Hk) as (_ & -> & Hin). cbn.
  apply filter_In in Hin as [_ Hkeep].
  unfold occurrences. f_equal. now apply tally_filter.
Qed.

Lemma sorted_entries_sorted text :
  ~ In "constructor" (lower_words text) ->
  StronglySorted not_below
    (sort by_frequency (entries (count_words (lower_words text)))).
Proof.
  intros Hc. apply sort_sorted, Forall_forall. intros e He.
  apply list_elem_of_In, entries_In in He.
  eexists. now apply (entries_counted text Hc).
Qed.

(** X7. What holds of the keywords of every text: there are at most ten,
    and each is a word of the lower-case text that is longer than three
    characters, is no common word and has no capital letter. *)
Theorem keywords_bounds :
  forall text : string,
    List.length (keywords text) <= 10
    /\ Forall (fun w => In w (lower_words text)
                        /\ 3 < String.length w
                        /\ has commonWords w = false
                        /\ no_upper w = true)
              (keywords text).
Proof.
  intros text. split; [apply keywords_at_most_ten|].
  apply Forall_forall. intros w Hw. apply list_elem_of_In in Hw.
  destruct (keywords_are_kept_words text w Hw) as (Hc & Hl & Ho).
  assert (Hin : In w (lower_words text)).
  { unfold occurrences in Ho. now apply (count_occ_In string_dec). }
  repeat split; auto. now apply (lower_words_no_upper text).
Qed.

(** X8. In a text without the word "constructor" every keyword is shown
    with the number of times it occurs in the text, and the keywords come
    in non-increasing order of that number. *)
Theorem keywords_in_frequency_order :
  forall text : string,
    ~ In "constructor" (lower_words text) ->
    topKeywords text
    = map (fun w => w +:+ " (" +:+ Js.nat_to_string (occurrences w text)
                      +:+ ")")
          (keywords text)
    /\ StronglySorted
         (fun w1 w2 => occurrences w2 text <= occurrences w1 text)
         (keywords text).
Proof.
  intros text Hc.
  destruct (keywords_sorted_without_constructor text Hc) as [Htop Hs].
  split; [|exact Hs].
  unfold topKeywords, keywords. rewrite map_map. apply map_ext_in.
  intros e He. rewrite (Htop e He). reflexivity.
Qed.

(** X9. The keywords are the most frequent words.  In a text without the
    word "constructor", a word that passes the filter and is left out of
    the keywords is left out for want of room: there are ten keywords
    then, and each of them occurs at least as often as the word left
    out. *)
Theorem keywords_are_most_frequent :
  forall (text w : string),
    ~ In "constructor" (lower_words text) ->
    In w (kept_words text) ->
    w <> "__proto__" ->
    ~ In w (keywords text) ->
    List.length (keywords text) = 10
    /\ forall k, In k (keywords text) ->
                 occurrences w text <= occurrences k text.
Proof.
  intros text w Hc Hw Hne Hout.
  pose proof (sorted_entries_sorted text Hc) as Hs.
  pose proof (entries_counted text Hc) as Hcount.
  assert (Hkey : In w (map fst (count_words (lower_words text))))
    by now apply count_words_keys.
  apply in_map_iff in Hkey as (e & <- & He).
  unfold keywords, top_entries in *.
  set (full := sort by_frequency (entries (count_words (lower_words text))))
    in *.
  assert (Hfull : forall x, In x full
                            <-> In x (count_words (lower_words text))).
  { intros x. rewrite <- !(list_elem_of_In _ x). subst full.
    now rewrite sorted_entries_Permutation. }
  assert (Hdrop : In e (drop 10 full)).
  { apply Hfull in He. rewrite <- (take_drop 10 full) in He.
    apply in_app_iff in He as [He|He]; [|assumption].
    exfalso. apply Hout. apply in_map_iff. exists e. auto. }
  split.
  - rewrite length_map. apply length_take_le.
    destruct (Nat.le_gt_cases 10 (List.length full)) as [|Hlt];
      [assumption|].
    rewrite drop_ge in Hdrop by lia. destruct Hdrop.
  - intros k Hk. apply in_map_iff in Hk as (ek & <- & Hek).
    rewrite <- (take_drop 10 full) in Hs.
    pose proof (StronglySorted_app_1_elem_of _ _ _ ek e Hs
                  ltac:(now apply list_elem_of_In)
                  ltac:(now apply list_elem_of_In)) as Hle.
    unfold not_below, count_of in Hle.
    rewrite (Hcount e), (Hcount ek) in Hle; [exact Hle| |].
    + apply Hfull. apply list_elem_of_In.
      apply (subseteq_take 10), list_elem_of_In, Hek.
    + apply Hfull. rewrite <- (take_drop 10 full). apply in_app_iff. auto.
Qed.

Lemma keywords_complete_witness :
  List.length (kept_words "__proto__ pattern matching pattern") <= 10
  /\ (In "matching" (keywords "__proto__ pattern matching pattern")
      <-> In "matching" (kept_words "__proto__ pattern matching pattern")
          /\ "matching" <> "__proto__").
Proof.
  split; [vm_compute; lia|].
  apply (proj2 (keywords_complete "__proto__ pattern matching pattern")).
  vm_compute. lia.
Defined.

Lemma keywords_empty_iff_witness :
  keywords "the cat sat on a __proto__" = []
  <-> forall w, In w (lower_words "the cat sat on a __proto__") ->
                keep_word w = true -> w = "__proto__".
Proof.
  apply (proj2 (keywords_empty_iff "the cat sat on a __proto__")).
Defined.

Lemma keywords_are_most_frequent_witness :
  ~ In "constructor" (lower_words eleven_words)
  /\ List.length (keywords eleven_words) = 10
  /\ forall k, In k (keywords eleven_words) ->
               occurrences "kilo" eleven_words <= occurrences k eleven_words.
Proof.
  split; [vm_compute; intuition discriminate|].
  apply (keywords_are_most_frequent eleven_words "kilo").
  - vm_compute. intuition discriminate.
  - vm_compute. auto 20.
  - discriminate.
  - vm_compute. intuition discriminate.
Defined.

Lemma keywords_in_frequency_order_witness :
  ~ In "constructor" (lower_words "Pattern matching beats pattern hunting")
  /\ topKeywords "Pattern matching beats pattern hunting"
     = [ "pattern (2)"; "matching (1)"; "beats (1)"; "hunting (1)" ].
Proof.
  split; [vm_compute; intuition discriminate|].
  apply (proj1 (keywords_in_frequency_order
                  "Pattern matching beats pattern hunting"
                  ltac:(vm_compute; intuition discriminate))).
Defined.

(** ** Letter case *)

Ltac by_cases c := destruct c as [[] [] [] [] [] [] [] []]; reflexivity.

Lemma lower_char_idempotent c : Js.lower_char (Js.lower_char c) = Js.lower_char c.
Proof. by_cases c. Qed.

Lemma is_word_char_lower c : Js.is_word_char (Js.lower_char c) = Js.is_word_char c.
Proof. by_cases c. Qed.

Lemma is_space_lower c : Js.is_space (Js.lower_char c) = Js.is_space c.
Proof. by_cases c. Qed.

Lemma is_sentence_end_lower c :
  is_sentence_end (Js.lower_char c) = is_sentence_end c.
Proof. by_cases c. Qed.

Lemma toLowerCase_idempotent s :
  Js.toLowerCase (Js.toLowerCase s) = Js.toLowerCase s.
Proof.
  induction s as [|c s IH]; cbn; [reflexivity|].
  now rewrite lower_char_idempotent, IH.
Qed.

Lemma toLowerCase_length s : String.length (Js.toLowerCase s) = String.length s.
Proof. induction s as [|c s IH]; cbn; [reflexivity|]. now rewrite IH. Qed.

Lemma toLowerCase_app s t :
  Js.toLowerCase (s +:+ t) = Js.toLowerCase s +:+ Js.toLowerCase t.
Proof.
  induction s as [|c s IH]; [reflexivity|].
  change (String c s +:+ t) with (String c (s +:+ t)). cbn.
  rewrite IH. reflexivity.
Qed.

Section Class.

Variable p : ascii -> bool.
Hypothesis p_lower : forall c, p (Js.lower_char c) = p c.

Lemma runs_from_lower cur s :
  Js.runs_from p (option_map Js.toLowerCase cur) (Js.toLowerCase s)
  = map Js.toLowerCase (Js.runs_from p cur s).
Proof.
  revert cur. induction s as [|c s IH]; intros cur; cbn.
  - destruct cur; reflexivity.
  - rewrite p_lower. destruct (p c).
    + rewrite <- IH. f_equal. destruct cur as [w|]; cbn; [|reflexivity].
      now rewrite toLowerCase_app.
    + destruct cur as [w|]; cbn; now rewrite <- (IH None).
Qed.

Lemma runs_lower s :
  Js.runs p (Js.toLowerCase s) = map Js.toLowerCase (Js.runs p s).
Proof. apply (runs_from_lower None). Qed.

Lemma count_chars_lower s :
  Js.count_chars p (Js.toLowerCase s) = Js.count_chars p s.
Proof.
  induction s as [|c s IH]; cbn; [reflexivity|]. now rewrite p_lower, IH.
Qed.

Lemma remove_chars_lower s :
  Js.remove_chars p (Js.toLowerCase s) = Js.toLowerCase (Js.remove_chars p s).
Proof.
  induction s as [|c s IH]; cbn; [reflexivity|]. rewrite p_lower.
  destruct (p c); cbn; now rewrite IH.
Qed.

End Class.

Lemma word_count_lower text : word_count (Js.toLowerCase text) = word_count text.
Proof.
  unfold word_count. rewrite (runs_lower _ is_word_char_lower).
  apply length_map.
Qed.

Lemma sentence_count_lower text :
  sentence_count (Js.toLowerCase text) = sentence_count text.
Proof.
  unfold sentence_count. rewrite (runs_lower _ is_sentence_end_lower).
  now rewrite length_map.
Qed.

Lemma countSyllables_lower text :
  countSyllables (Js.toLowerCase text) = countSyllables text.
Proof.
  unfold countSyllables. rewrite (runs_lower _ is_word_char_lower).
  rewrite map_map. f_equal. apply map_ext. intros w.
  apply toLowerCase_idempotent.
Qed.

Lemma text_statistics_lower text :
  text_statistics (Js.toLowerCase text) = text_statistics text.
Proof.
  unfold text_statistics.
  rewrite word_count_lower, sentence_count_lower, toLowerCase_length,
    (remove_chars_lower _ is_space_lower), toLowerCase_length.
  reflexivity.
Qed.

Section Host.

Variable toFixed1 : quotient -> string.
Variable double : Type.
Variable gradeLevel : nat -> nat -> nat -> double.
Variable double_lt : double -> nat -> bool.
Variable double_to_string : double -> string.

Abbreviation analyze :=
  (analyze toFixed1 double gradeLevel double_lt double_to_string).

(** X10. The four analyses do not see letter case: a text and its
    lower-case form get the same keywords, sentiment, statistics and
    readability results.  Texts are sequences of Latin-1 code units, on
    which [toLowerCase] keeps the length and the character classes. *)
Theorem analyses_ignore_case :
  forall (f : analysis) (text : string),
    analyze f (Js.toLowerCase text) = analyze f text.
Proof.
  intros [] text; cbn.
  - unfold analyzeKeywords, topKeywords, top_entries, lower_words.
    now rewrite toLowerCase_idempotent.
  - unfold analyzeSentiment. now rewrite toLowerCase_idempotent.
  - unfold analyzeStatistics. now rewrite text_statistics_lower.
  - unfold analyzeReadability.
    now rewrite word_count_lower, sentence_count_lower, countSyllables_lower.
Qed.

End Host.

(** ** Runs of a character class *)

Lemma length_snoc w c :
  String.length (w +:+ String c EmptyString) = S (String.length w).
Proof.
  induction w as [|a w IH]; [reflexivity|].
  change (String a w +:+ String c "") with (String a (w +:+ String c "")).
  cbn. now rewrite IH.
Qed.

(** The runs are not empty, and together they hold every character of
    the class. *)
Lemma runs_from_lengths p cur s :
  proper cur ->
  Forall (fun w => 1 <= String.length w) (Js.runs_from p cur s)
  /\ sum_of String.length (Js.runs_from p cur s)
     = started cur + Js.count_chars p s.
Proof.
  revert cur. induction s as [|c s IH]; intros [w|] Hcur;
    cbn [Js.runs_from Js.count_chars started proper sum_of] in *.
  - split; [repeat constructor; assumption|cbn; lia].
  - split; [constructor|reflexivity].
  - destruct (p c).
    + destruct (IH (Some (w +:+ String c "")))
        as [H1 H2]; [cbn [proper]; rewrite length_snoc; lia|].
      split; [assumption|]. rewrite H2. cbn [started].
      rewrite length_snoc. lia.
    + destruct (IH None I) as [H1 H2].
      split; [constructor; assumption|]. cbn [sum_of].
      rewrite H2. cbn. lia.
  - destruct (p c).
    + destruct (IH (Some (String c ""))) as [H1 H2]; [cbn; lia|].
      split; [assumption|]. rewrite H2. cbn. lia.
    + destruct (IH None I) as [H1 H2].
      split; [assumption|]. rewrite H2. reflexivity.
Qed.

Lemma length_le_sum (l : list string) :
  Forall (fun w => 1 <= String.length w) l ->
  List.length l <= sum_of String.length l.
Proof. induction 1; cbn; lia. Qed.

Lemma runs_length_le p s :
  List.length (Js.runs p s) <= Js.count_chars p s.
Proof.
  destruct (runs_from_lengths p None s I) as [H1 H2].
  apply length_le_sum in H1. unfold Js.runs. cbn in H2. lia.
Qed.

Lemma runs_none_iff p s :
  List.length (Js.runs p s) = 0 <-> Js.count_chars p s = 0.
Proof.
  split.
  - intros H. destruct (runs_from_lengths p None s I) as [_ H2].
    unfold Js.runs in H. destruct (Js.runs_from p None s); [|discriminate].
    cbn in H2. lia.
  - intros H. unfold Js.runs. now rewrite runs_from_no_match.
Qed.

Lemma remove_chars_length p s :
  String.length s
  = String.length (Js.remove_chars p s) + Js.count_chars p s.
Proof.
  induction s as [|c s IH]; cbn; [reflexivity|].
  destruct (p c); cbn; lia.
Qed.

Lemma count_chars_le_removed p q s :
  (forall c, p c = true -> q c = false) ->
  Js.count_chars p s <= String.length (Js.remove_chars q s).
Proof.
  intros Hpq. induction s as [|c s IH]; cbn; [lia|].
  destruct (p c) eqn:Hp.
  - rewrite (Hpq c Hp). cbn. lia.
  - destruct (q c); cbn; lia.
Qed.

Lemma word_char_not_space c :
  Js.is_word_char c = true -> Js.is_space c = false.
Proof. destruct c as [[] [] [] [] [] [] [] []]; vm_compute; congruence. Qed.

(** X11. The numbers of [analyzeStatistics] bound one another: there are at
    most as many words as characters that are not white space, the
    characters are those plus the white space, and the sentence count is
    at most the number of '.', '!' and '?' (or 1, the fallback). *)
Theorem statistics_bounds :
  forall text : string,
    let st := text_statistics text in
    words st <= charactersNoSpaces st
    /\ charactersNoSpaces st <= characters st
    /\ characters st
       = charactersNoSpaces st + Js.count_chars Js.is_space text
    /\ sentences st <= Nat.max 1 (Js.count_chars is_sentence_end text).
Proof.
  intros text. cbn.
  pose proof (runs_length_le Js.is_word_char text) as Hw.
  pose proof (count_chars_le_removed Js.is_word_char Js.is_space text
                word_char_not_space) as Hc.
  pose proof (remove_chars_length Js.is_space text) as Hl.
  pose proof (runs_length_le is_sentence_end text) as Hs.
  unfold word_count, sentence_count, or_one.
  repeat split; try lia.
  destruct (List.length (Js.runs is_sentence_end text)); lia.
Qed.

(** X12. The average word length divides by the word count, which can be
    zero.  It is [NaN] exactly when the text holds nothing but white
    space, [Infinity] exactly when it holds no word character but some
    other character, and otherwise the quotient of the characters that
    are not white space by a word count of at least 1. *)
Theorem average_word_length_cases :
  forall text : string,
    let st := text_statistics text in
    (avgWordLength st = QNaN
     <-> Js.remove_chars Js.is_space text = EmptyString)
    /\ (avgWordLength st = QInfinity
        <-> Js.count_chars Js.is_word_char text = 0
            /\ Js.remove_chars Js.is_space text <> EmptyString)
    /\ (0 < Js.count_chars Js.is_word_char text ->
        avgWordLength st = Ratio (charactersNoSpaces st) (words st)
        /\ 1 <= words st).
Proof.
  intros text. cbn.
  pose proof (runs_none_iff Js.is_word_char text) as Hz.
  pose proof (count_chars_le_removed Js.is_word_char Js.is_space text
                word_char_not_space) as Hc.
  unfold word_count in *.
  destruct (List.length (Js.runs Js.is_word_char text)) as [|n] eqn:En;
    destruct (Js.remove_chars Js.is_space text) as [|a r] eqn:Er;
    cbn in *.
  - split; [tauto|]. split; [|lia].
    split; [discriminate|]. intros [_ H]. congruence.
  - split; [split; discriminate|]. split; [|lia].
    split; [intros _; split; [tauto|discriminate]|reflexivity].
  - assert (Js.count_chars Js.is_word_char text = 0) by lia.
    destruct Hz as [_ Hz]. specialize (Hz H). discriminate.
  - split; [split; discriminate|]. split.
    + split; [discriminate|]. intros [H _].
      destruct Hz as [_ Hz]. specialize (Hz H). discriminate.
    + intros _. split; [reflexivity|lia].
Qed.

(** ** Syllables *)

Lemma fold_sum {A} (g : A -> nat) l a :
  fold_left (fun n x => n + g x) l a = a + sum_of g l.
Proof.
  revert a. induction l as [|x l IH]; intros a; cbn; [lia|].
  rewrite IH. lia.
Qed.

Lemma count_chars_le_length p s : Js.count_chars p s <= String.length s.
Proof. induction s as [|c s IH]; cbn; [lia|]. destruct (p c); lia. Qed.

Lemma syllables_per_word (l : list string) :
  Forall (fun w => 1 <= String.length w) l ->
  List.length l
  <= sum_of (fun w => Nat.max 1 (Js.count_chars is_vowel w))
            (map Js.toLowerCase l)
  /\ sum_of (fun w => Nat.max 1 (Js.count_chars is_vowel w))
            (map Js.toLowerCase l)
     <= sum_of String.length l.
Proof.
  induction 1 as [|w l Hw Hl IH]; cbn [map sum_of List.length]; [lia|].
  pose proof (count_chars_le_length is_vowel (Js.toLowerCase w)) as Hv.
  rewrite toLowerCase_length in Hv. lia.
Qed.

(** X13. Every word counts for at least one syllable and at most one per
    character: the syllable count lies between the word count and the
    number of word characters. *)
Theorem syllable_bounds :
  forall text : string,
    word_count text <= countSyllables text
    /\ countSyllables text <= Js.count_chars Js.is_word_char text.
Proof.
  intros text. unfold countSyllables, word_count. rewrite fold_sum.
  destruct (runs_from_lengths Js.is_word_char None text I) as [H1 H2].
  cbn [started] in H2. rewrite Nat.add_0_l in *. rewrite <- H2.
  now apply syllables_per_word.
Qed.

Lemma average_word_length_cases_witness :
  0 < Js.count_chars Js.is_word_char "Hello, wide world!"
  /\ avgWordLength (text_statistics "Hello, wide world!") = Ratio 16 3.
Proof.
  split; [vm_compute; lia|].
  apply (proj2 (proj2 (average_word_length_cases "Hello, wide world!"))).
  vm_compute. lia.
Defined.

(** ** Sentiment *)

Lemma prefix_app w rest : String.prefix w (w +:+ rest) = true.
Proof.
  induction w as [|a w IH]; [destruct rest; reflexivity|].
  change (String a w +:+ rest) with (String a (w +:+ rest)). cbn.
  destruct (ascii_dec a a); [assumption|contradiction].
Qed.

Lemma prefix_inv w s : String.prefix w s = true -> exists rest, s = w +:+ rest.
Proof.
  revert s. induction w as [|a w IH]; intros s H.
  - exists s. reflexivity.
  - destruct s as [|b s]; [discriminate|]. cbn in H.
    destruct (ascii_dec a b) as [->|]; [|discriminate].
    destruct (IH s H) as [rest ->]. exists rest. reflexivity.
Qed.

(** [occurs w s] holds exactly when [s] is some text, then [w], then some
    text. *)
Lemma occurs_spec w s :
  occurs w s = true <-> exists before after, s = before +:+ w +:+ after.
Proof.
  split.
  - induction s as [|c s IH]; cbn [occurs]; intros H;
      apply orb_true_iff in H as [H|H].
    + apply prefix_inv in H as [rest ->]. exists "", rest. reflexivity.
    + discriminate.
    + apply prefix_inv in H as [rest ->]. exists "", rest. reflexivity.
    + destruct (IH H) as (before & after & ->).
      exists (String c before), after. reflexivity.
  - intros (before & after & ->).
    induction before as [|c before IH].
    + change ("" +:+ w +:+ after) with (w +:+ after).
      destruct (w +:+ after) eqn:E; cbn [occurs]; rewrite <- E;
        now rewrite prefix_app.
    + change (String c before +:+ w +:+ after)
        with (String c (before +:+ w +:+ after)).
      cbn [occurs]. rewrite IH. apply orb_true_r.
Qed.

Lemma occurs_found w s :
  w <> EmptyString -> occurs w s = true -> 1 <= Js.count_literal w s.
Proof.
  intros Hw. unfold Js.count_literal.
  induction s as [|c s IH]; cbn [occurs Js.count_literal_from]; intros H.
  - destruct w; [contradiction|discriminate].
  - destruct (String.prefix w (String c s)); [lia|]. now apply IH.
Qed.

Lemma not_found_zero w s : occurs w s = false -> Js.count_literal w s = 0.
Proof.
  unfold Js.count_literal.
  induction s as [|c s IH]; cbn [occurs Js.count_literal_from]; intros H.
  - reflexivity.
  - apply orb_false_iff in H as [-> H]. now apply IH.
Qed.

Lemma count_all_sum set lowerText a :
  fold_left (fun n word => n + Js.count_literal word lowerText) set a
  = a + count_all set lowerText.
Proof.
  unfold count_all. revert a.
  assert (H : forall l a b,
             fold_left (fun n word => n + Js.count_literal word lowerText)
                       l (a + b)
             = a + fold_left (fun n word =>
                                n + Js.count_literal word lowerText) l b).
  { induction l as [|w l IH]; intros a b; cbn; [reflexivity|].
    rewrite <- IH. f_equal. lia. }
  intros a. rewrite <- H. f_equal. lia.
Qed.

Lemma count_all_cons w set lowerText :
  count_all (w :: set) lowerText
  = Js.count_literal w lowerText + count_all set lowerText.
Proof. unfold count_all at 1. cbn. apply count_all_sum. Qed.

Lemma count_all_zero set lowerText :
  (forall w, In w set -> occurs w lowerText = false) ->
  count_all set lowerText = 0.
Proof.
  induction set as [|w set IH]; intros H; [reflexivity|].
  rewrite count_all_cons, IH, not_found_zero; cbn in *; auto.
Qed.

Lemma count_all_positive set lowerText w :
  In w set -> w <> EmptyString -> occurs w lowerText = true ->
  1 <= count_all set lowerText.
Proof.
  intros Hin Hw Ho. induction set as [|v set IH]; [destruct Hin|].
  rewrite count_all_cons. destruct Hin as [->|Hin].
  - pose proof (occurs_found w lowerText Hw Ho). lia.
  - specialize (IH Hin). lia.
Qed.

Lemma listed_words_not_empty w :
  In w (positiveWords ++ negativeWords) -> w <> EmptyString.
Proof.
  intros H ->. cbn in H. repeat destruct H as [H|H]; try discriminate H.
  destruct H.
Qed.

(** X14. A text that holds none of the twenty listed words, in any letter
    case, not even inside a longer word, is reported as neutral with both
    counts zero. *)
Theorem sentiment_neutral_without_listed_words :
  forall text : string,
    (forall w, In w (positiveWords ++ negativeWords) ->
               occurs w (Js.toLowerCase text) = false) ->
    analyzeSentiment text
    = "**Sentiment:** Neutral (Positive: 0, Negative: 0)".
Proof.
  intros text H. unfold analyzeSentiment.
  rewrite !count_all_zero; [reflexivity| |].
  - intros w Hw. apply H, in_app_iff. auto.
  - intros w Hw. apply H, in_app_iff. auto.
Qed.

(** X15. Words are matched as substrings of the lower-case text.  When a
    positive word occurs somewhere in it, be it inside a longer word, and
    no negative word does, the sentiment is "Positive" with a negative
    count of zero; and the other way round. *)
Theorem sentiment_one_sided :
  forall (text w : string),
    occurs w (Js.toLowerCase text) = true ->
    (In w positiveWords ->
     (forall v, In v negativeWords ->
                occurs v (Js.toLowerCase text) = false) ->
     exists n, 1 <= n
               /\ analyzeSentiment text
                  = "**Sentiment:** Positive (Positive: "
                      +:+ Js.nat_to_string n +:+ ", Negative: 0)")
    /\ (In w negativeWords ->
        (forall v, In v positiveWords ->
                   occurs v (Js.toLowerCase text) = false) ->
        exists n, 1 <= n
                  /\ analyzeSentiment text
                     = "**Sentiment:** Negative (Positive: 0, Negative: "
                         +:+ Js.nat_to_string n +:+ ")").
Proof.
  intros text w Ho. split; intros Hw Hnone.
  - pose proof (count_all_positive positiveWords _ w Hw
                  (listed_words_not_empty w ltac:(apply in_app_iff; auto))
                  Ho) as Hp.
    exists (count_all positiveWords (Js.toLowerCase text)).
    split; [assumption|]. unfold analyzeSentiment.
    rewrite (count_all_zero negativeWords) by assumption.
    unfold sentiment_label.
    destruct (Nat.ltb_spec 0 (count_all positiveWords (Js.toLowerCase text)));
      [reflexivity|lia].
  - pose proof (count_all_positive negativeWords _ w Hw
                  (listed_words_not_empty w ltac:(apply in_app_iff; auto))
                  Ho) as Hp.
    exists (count_all negativeWords (Js.toLowerCase text)).
    split; [assumption|]. unfold analyzeSentiment.
    rewrite (count_all_zero positiveWords) by assumption.
    unfold sentiment_label.
    destruct (Nat.ltb_spec (count_all negativeWords (Js.toLowerCase text)) 0);
      [lia|].
    destruct (Nat.ltb_spec 0 (count_all negativeWords (Js.toLowerCase text)));
      [reflexivity|lia].
Qed.

Lemma sentiment_neutral_without_listed_words_witness :
  analyzeSentiment "The meeting is at noon."
  = "**Sentiment:** Neutral (Positive: 0, Negative: 0)".
Proof.
  apply (sentiment_neutral_without_listed_words "The meeting is at noon.").
  intros w Hw. cbn in Hw.
  repeat (destruct Hw as [<-|Hw]; [vm_compute; reflexivity|]).
  destruct Hw.
Defined.

Lemma sentiment_one_sided_witness :
  occurs "happy" (Js.toLowerCase "I am so UNHAPPY today") = true
  /\ exists n,
       1 <= n
       /\ analyzeSentiment "I am so UNHAPPY today"
          = "**Sentiment:** Positive (Positive: "
              +:+ Js.nat_to_string n +:+ ", Negative: 0)".
Proof.
  split; [vm_compute; reflexivity|].
  apply (proj1 (sentiment_one_sided "I am so UNHAPPY today" "happy"
                  ltac:(vm_compute; reflexivity))).
  - vm_compute. auto 20.
  - intros v Hv. cbn in Hv.
    repeat (destruct Hv as [<-|Hv]; [vm_compute; reflexivity|]).
    destruct Hv.
Defined.

End AnalysisFacts.

(* ===================================================================== *)
(** * More properties of the handler                                      *)
(* ===================================================================== *)

Module HandlerFacts.

Import Json TextAnalyzer TextAnalyzerFacts Measures.

Lemma route_Some v f : route v = Some f <-> v = VStr (analysis_name f).
Proof.
  split.
  - destruct v as [| | |s| |]; cbn; try discriminate.
    destruct (String.eqb_spec s "keywords") as [->|_];
      [intros [= <-]; reflexivity|].
    destruct (String.eqb_spec s "sentiment") as [->|_];
      [intros [= <-]; reflexivity|].
    destruct (String.eqb_spec s "statistics") as [->|_];
      [intros [= <-]; reflexivity|].
    destruct (String.eqb_spec s "readability") as [->|_];
      [intros [= <-]; reflexivity|discriminate].
  - intros ->. destruct f; reflexivity.
Qed.

Lemma route_None v : route v = None <-> forall f, v <> VStr (analysis_name f).
Proof.
  split.
  - intros H f Hf. apply route_Some in Hf. congruence.
  - intros H. destruct (route v) as [f|] eqn:Hr; [|reflexivity].
    apply route_Some in Hr. destruct (H f Hr).
Qed.

Section Handler.

Variable toFixed1 : quotient -> string.
Variable double : Type.
Variable gradeLevel : nat -> nat -> nat -> double.
Variable double_lt : double -> nat -> bool.
Variable double_to_string : double -> string.
Variable TypeError_message : value -> string -> string.
Variable caller : string.
Variable Deduplicator : Type.
Variable isDuplicate : Deduplicator -> string -> object -> bool.
Variable trackRun : Deduplicator -> string -> object -> Deduplicator.

Abbreviation state := (state Deduplicator).
Abbreviation tracker := (tracker Deduplicator).
Abbreviation trace := (trace Deduplicator).
Abbreviation analyze :=
  (analyze toFixed1 double gradeLevel double_lt double_to_string).
Abbreviation handler :=
  (handler toFixed1 double gradeLevel double_lt double_to_string
           TypeError_message caller Deduplicator isDuplicate trackRun).
Abbreviation duplicate := (duplicate Deduplicator isDuplicate).
Abbreviation events :=
  (events toFixed1 double gradeLevel double_lt double_to_string
          TypeError_message caller Deduplicator isDuplicate trackRun).

(** What one call does, by the way it goes. *)
Lemma call_cases args s :
  (duplicate s args = true
   /\ fst (handler args s) = Normal duplicate_notice
   /\ events args s = [IsDuplicate; Log skip_message]
   /\ tracker (snd (handler args s)) = tracker s)
  \/ (duplicate s args = false
      /\ route (analysis_type_of args) = None
      /\ fst (handler args s) = Normal "Invalid analysis type specified."
      /\ events args s = [IsDuplicate]
      /\ tracker (snd (handler args s)) = tracker s)
  \/ (exists f text,
         duplicate s args = false
         /\ route (analysis_type_of args) = Some f
         /\ text_of args = VStr text
         /\ fst (handler args s) = Normal (analyze f text)
         /\ events args s
            = [IsDuplicate; Ran f;
               Introspect (introspect_message caller f); TrackRun]
         /\ tracker (snd (handler args s))
            = trackRun (tracker s) name (tracked args))
  \/ (exists f,
         duplicate s args = false
         /\ route (analysis_type_of args) = Some f
         /\ is_string (text_of args) = false
         /\ fst (handler args s)
            = Normal (error_text (TypeError_message (text_of args)
                                                    (first_method f)))
         /\ events args s
            = [IsDuplicate; Ran f;
               Log (error_log (TypeError_message (text_of args)
                                                 (first_method f)))]
         /\ tracker (snd (handler args s)) = tracker s).
Proof.
  pose proof (handler_path toFixed1 double gradeLevel double_lt
                double_to_string TypeError_message caller Deduplicator
                isDuplicate trackRun args s) as P.
  inversion P as [Hd Hf Hs|Hd Hr Hf Hs|f text Hd Hr Ht Hf Hs
                  |f Hd Hr Ht Hf Hs].
  - left. repeat split; auto.
    apply events_spec. rewrite <- Hs. reflexivity.
  - right. left. repeat split; auto.
    apply events_spec. rewrite <- Hs. reflexivity.
  - right. right. left. exists f, text. repeat split; auto.
    apply events_spec. rewrite <- Hs. reflexivity.
  - right. right. right. exists f. repeat split; auto.
    apply events_spec. rewrite <- Hs. reflexivity.
Qed.

(** X16. The handler answers "Invalid analysis type specified." exactly
    when the tracker does not report the call as a duplicate and
    [analysis_type] is none of the four strings "keywords", "sentiment",
    "statistics" and "readability", spelled so.  Such a call does nothing
    after the duplicate check: it enters no analysis, logs nothing and
    leaves the tracker as it was. *)
Theorem invalid_type_only_checked :
  forall (args : object) (s : state),
    (fst (handler args s) = Normal "Invalid analysis type specified."
     <-> duplicate s args = false
         /\ forall f, analysis_type_of args <> VStr (analysis_name f))
    /\ (fst (handler args s) = Normal "Invalid analysis type specified." ->
        events args s = [IsDuplicate]
        /\ tracker (snd (handler args s)) = tracker s).
Proof.
  intros args s.
  assert (H : fst (handler args s) = Normal "Invalid analysis type specified."
              -> duplicate s args = false
                 /\ route (analysis_type_of args) = None
                 /\ events args s = [IsDuplicate]
                 /\ tracker (snd (handler args s)) = tracker s).
  { intros Hres.
    destruct (call_cases args s)
      as [(_ & Hf & _)|[(Hd & Hr & _ & He & Ht)
                       |[(f & text & _ & _ & _ & Hf & _)
                        |(f & _ & _ & _ & Hf & _)]]].
    - rewrite Hf in Hres. discriminate.
    - auto.
    - rewrite Hf in Hres. destruct f; discriminate.
    - rewrite Hf in Hres. discriminate. }
  split; [split|].
  - intros Hres. destruct (H Hres) as (Hd & Hr & _).
    split; [assumption|]. now apply route_None.
  - intros [Hd Hr]. apply route_None in Hr.
    destruct (call_cases args s)
      as [(Hd' & _)|[(_ & _ & Hf & _)
                    |[(f & text & _ & Hr' & _)|(f & _ & Hr' & _)]]];
      congruence.
  - intros Hres. destruct (H Hres) as (_ & _ & He & Ht). auto.
Qed.

(** X17. The effects of one call, whatever its arguments.  It enters at
    most one analysis function, and only the one that [analysis_type]
    names.  It reports to the agent only on the way to recording the run.
    The tracker changes in no other way than by recording this call's
    composite of text and analysis type, and that happens exactly when
    the call reaches [trackRun]. *)
Theorem call_effects :
  forall (args : object) (s : state),
    analyses (events args s) <= 1
    /\ (forall f, In (Ran f) (events args s) ->
                  analysis_type_of args = VStr (analysis_name f))
    /\ (forall msg, In (Introspect msg) (events args s) ->
                    In TrackRun (events args s))
    /\ (In TrackRun (events args s) ->
        tracker (snd (handler args s))
        = trackRun (tracker s) name (tracked args))
    /\ (~ In TrackRun (events args s) ->
        tracker (snd (handler args s)) = tracker s).
Proof.
  intros args s.
  destruct (call_cases args s)
    as [(_ & _ & He & Ht)|[(_ & _ & _ & He & Ht)
                          |[(f & text & _ & Hr & _ & _ & He & Ht)
                           |(f & _ & Hr & _ & _ & He & Ht)]]];
    rewrite He; cbn.
  - repeat split; try lia; intros; intuition discriminate.
  - repeat split; try lia; intros; intuition discriminate.
  - apply route_Some in Hr. repeat split; try lia; auto 10.
    + intros f' [H|[[= <-]|[H|[H|[]]]]]; try discriminate. assumption.
    + intros H. exfalso. apply H. auto 10.
  - apply route_Some in Hr. repeat split; try lia; auto.
    + intros f' [H|[[= <-]|[H|[]]]]; try discriminate. assumption.
    + intros msg H. exfalso. intuition discriminate.
    + intros H. exfalso. intuition discriminate.
Qed.

End Handler.

Lemma invalid_type_only_checked_witness :
  fst (Fixtures.handler shouted_call Fixtures.start)
  = Normal "Invalid analysis type specified."
  /\ Fixtures.events shouted_call Fixtures.start = [IsDuplicate].
Proof.
  split; [vm_compute; reflexivity|].
  apply (proj2 (invalid_type_only_checked
                  Fixtures.toFixed1 Double.double Fixtures.gradeLevel
                  Fixtures.grade_lt Fixtures.grade_to_string
                  Fixtures.TypeError_message "agent" (list string)
                  Fixtures.isDuplicate Fixtures.trackRun
                  shouted_call Fixtures.start)).
  vm_compute. reflexivity.
Defined.

Lemma call_effects_witness :
  In TrackRun (Fixtures.events Fixtures.keywords_call Fixtures.start)
  /\ tracker (list string)
             (snd (Fixtures.handler Fixtures.keywords_call Fixtures.start))
     = Fixtures.trackRun (tracker (list string) Fixtures.start) name
                         (tracked Fixtures.keywords_call).
Proof.
  split; [vm_compute; auto|].
  apply (call_effects
           Fixtures.toFixed1 Double.double Fixtures.gradeLevel
           Fixtures.grade_lt Fixtures.grade_to_string
           Fixtures.TypeError_message "agent" (list string)
           Fixtures.isDuplicate Fixtures.trackRun
           Fixtures.keywords_call Fixtures.start).
  vm_compute. auto.
Defined.

End HandlerFacts.
